(** * Plex-Discord-Media-Updates: the message composition of
    [plex_discord_media_updates.py], embedded and verified.

    Python strings are sequences of Unicode code points: [len] counts code
    points and [<] compares them lexicographically.  They are modelled as
    lists of code points ([N]); the literals of the script are all ASCII and
    are written with [lit]. *)

From Stdlib Require Import Ascii String DecimalString.
From Stdlib Require Import ZArith NArith Bool Lia List.
From Stdlib Require Import Sorted Permutation Orders Mergesort.
Import ListNotations.
Local Open Scope Z_scope.

(** ** Python strings *)

Module PyStr.

Definition char := N.
Definition str := list char.

Definition lit (s : string) : str := map N_of_ascii (list_ascii_of_string s).

(** The newline character, written [\n] in the script. *)
Definition nl : char := 10%N.

(** [len(s)], of a string or a list. *)
Definition len {A : Type} (s : list A) : Z := Z.of_nat (length s).

(** [sum(l)] *)
Definition sum (l : list Z) : Z := fold_right Z.add 0 l.

(** [str(n)] of an integer. *)
Definition str_of_Z (z : Z) : str := lit (NilZero.string_of_int (Z.to_int z)).

(** How a slice bound [i] is adjusted against a sequence of length [n]:
    a negative bound counts from the end, and the result is clipped to
    [0 .. n]. *)
Definition adjust (n i : Z) : Z :=
  if i <? 0 then Z.max 0 (n + i) else Z.min i n.

(** [s[:stop]] *)
Definition slice_to (s : str) (stop : Z) : str :=
  firstn (Z.to_nat (adjust (len s) stop)) s.

(** The scan behind [rfind]: [i] is the index of the head of [s]; the
    answer is the highest index in [a, b) holding [c], or -1. *)
Fixpoint rfind_aux (c : char) (s : str) (i a b : Z) : Z :=
  match s with
  | [] => -1
  | x :: t =>
      let r := rfind_aux c t (i + 1) a b in
      if 0 <=? r then r
      else if (a <=? i) && (i <? b) && (x =? c)%N then i else -1
  end.

(** [s.rfind(c, start, stop)] for a needle of one character. *)
Definition rfind (s : str) (c : char) (start stop : Z) : Z :=
  rfind_aux c s 0 (adjust (len s) start) (adjust (len s) stop).

(** [sep.join(l)] *)
Fixpoint join (sep : str) (l : list str) : str :=
  match l with
  | [] => []
  | [x] => x
  | x :: t => x ++ sep ++ join sep t
  end.

(** [s.endswith(suffix)], used to state properties only. *)
Definition endswith (s suffix : str) : bool :=
  if list_eq_dec N.eq_dec (skipn (length s - length suffix) s) suffix
  then (length suffix <=? length s)%nat else false.

(** Comparison of strings: code point by code point, a proper prefix
    first. *)
Fixpoint cmp (a b : str) : comparison :=
  match a, b with
  | [], [] => Eq
  | [], _ :: _ => Lt
  | _ :: _, [] => Gt
  | x :: a', y :: b' =>
      match (x ?= y)%N with
      | Eq => cmp a' b'
      | o => o
      end
  end.

Definition ltb (a b : str) : bool :=
  match cmp a b with Lt => true | _ => false end.

Definition leb (a b : str) : bool :=
  match cmp a b with Gt => false | _ => true end.

End PyStr.
Import PyStr.

(** ** The regular expressions the script uses

    A pattern is a sequence of items: a starred character class, a single
    character class, or [$].  [re_match] is [re.match]: the pattern has
    to match at the start of the string and need not consume all of it. *)

Module Re.

Inductive item :=
| Star (p : char -> bool)
| One (p : char -> bool)
| Dollar.

(** [.] matches any character but a newline. *)
Definition dot (c : char) : bool := negb (c =? nl)%N.

Definition is_char (a : ascii) (c : char) : bool := (c =? N_of_ascii a)%N.

(** [[lo-hi]] *)
Definition range (lo hi : ascii) (c : char) : bool :=
  (N_of_ascii lo <=? c)%N && (c <=? N_of_ascii hi)%N.

(** [[ab]] *)
Definition either (a b : ascii) (c : char) : bool := is_char a c || is_char b c.

(** [$] holds at the end of the string and just before a newline that
    ends the string. *)
Definition at_dollar (s : str) : bool :=
  match s with
  | [] => true
  | [c] => (c =? nl)%N
  | _ => false
  end.

Fixpoint re_match (r : list item) (s : str) {struct r} : bool :=
  match r with
  | [] => true
  | Dollar :: r' => at_dollar s && re_match r' s
  | One p :: r' =>
      match s with
      | c :: s' => p c && re_match r' s'
      | [] => false
      end
  | Star p :: r' =>
      (fix star (s : str) : bool :=
         re_match r' s
         || match s with
            | c :: s' => p c && star s'
            | [] => false
            end) s
  end.

End Re.

(** ** Media items and [clean_year] *)

(** What the script reads of a Plex Show or Movie object. *)
Record media := { title : str; year : Z }.

(** [".*\([12][0-9]{3}\)$"] *)
Definition year_regex : list Re.item :=
  [ Re.Star Re.dot; Re.One (Re.is_char "(");
    Re.One (Re.either "1" "2");
    Re.One (Re.range "0" "9"); Re.One (Re.range "0" "9"); Re.One (Re.range "0" "9");
    Re.One (Re.is_char ")"); Re.Dollar ].

Definition clean_year (m : media) : str :=
  let t := [] ++ title m in
  if negb (Re.re_match year_regex (title m))
  then t ++ lit " (" ++ str_of_Z (year m) ++ lit ")"
  else t.

(** ** Trimming and embeds *)

(** [max_length_exceeded_msg] is the global the function reads when it is
    called; the main block has by then rebound it to the formatted notice. *)
Definition trim_on_newlines (max_length_exceeded_msg : str)
    (long_string : str) (max_length : Z) : str :=
  if len long_string >? max_length then
    let end_ := rfind long_string nl 0 max_length in
    slice_to long_string end_ ++ max_length_exceeded_msg
  else
    long_string ++ max_length_exceeded_msg.

Module dhooks.
Record Embed := {
  title : str;
  description : str;
  color : Z;
  thumbnail : option str
}.

Definition set_thumbnail (url : str) (e : Embed) : Embed :=
  {| title := title e; description := description e; color := color e;
     thumbnail := Some url |}.
End dhooks.

(** [create_embeds] appends to the global list [webhook_embeds]; the list is
    passed in and the extended list returned. *)
Definition create_embeds (max_length_exceeded_msg : str)
    (webhook_embeds : list dhooks.Embed)
    (embed_title embed_description : str) (embed_color : Z) (max_length : Z)
    : list dhooks.Embed :=
  let embed_description :=
    if len embed_description >? max_length
    then trim_on_newlines max_length_exceeded_msg embed_description max_length
    else embed_description in
  let embed := {| dhooks.title := embed_title;
                  dhooks.description := embed_description;
                  dhooks.color := embed_color;
                  dhooks.thumbnail := None |} in
  webhook_embeds ++ [embed].

(** ** Ordering and [list.sort] on strings

    [list.sort()] orders by [<]; on strings, where [<] is a total order, the
    result is the ascending arrangement of the list.  It is modelled by the
    Standard Library's merge sort over [PyStr.leb]. *)

Module StrOrder <: TotalLeBool.
Definition t := str.
Definition leb := PyStr.leb.
Infix "<=?" := leb (at level 70, no associativity).
Theorem leb_total : forall a1 a2, is_true (a1 <=? a2) \/ is_true (a2 <=? a1).
Proof.
  unfold leb, PyStr.leb, is_true.
  induction a1 as [|x a1 IH]; destruct a2 as [|y a2]; simpl; auto.
  rewrite (N.compare_antisym x y).
  destruct (x ?= y)%N; simpl; auto.
Qed.
End StrOrder.

Module StrSort := Sort StrOrder.

(** ** [collections.Counter]

    A [Counter] is a dict: it keeps its keys in the order of their first
    insertion, one entry per key. *)

Definition str_eq_dec : forall a b : str, {a = b} + {a <> b} := list_eq_dec N.eq_dec.

Fixpoint Counter_add (k : str) (c : list (str * Z)) : list (str * Z) :=
  match c with
  | [] => [(k, 1)]
  | (k', n) :: c' =>
      if str_eq_dec k k' then (k', n + 1) :: c' else (k', n) :: Counter_add k c'
  end.

Definition Counter (l : list str) : list (str * Z) :=
  fold_left (fun c k => Counter_add k c) l [].

(** [c[k]]; a key that is missing counts as 0. *)
Fixpoint Counter_get (c : list (str * Z)) (k : str) : Z :=
  match c with
  | [] => 0
  | (k', n) :: c' => if str_eq_dec k k' then n else Counter_get c' k
  end.

(** The keys, in the order a loop over the counter visits them. *)
Definition Counter_keys (c : list (str * Z)) : list str := map fst c.

(** ** Configuration, collaborators and effects *)

(** The values the script reads from [config.yml].  [message_title] is the
    header as it stands when the message is sent, the lookback text already
    formatted into it. *)
Record config := {
  skip_movies : bool;
  skip_tv : bool;
  show_total_episodes : bool;
  show_individual_episodes : bool;
  message_title : str;
  embed_thumbnail : str;
  bullet : str;
  movie_embed_colour : Z;
  tv_embed_colour : Z;
  movie_emote : str;
  tv_emote : str;
  max_length_exceeded_msg : str;
  uptime_status : option str
}.

(** What the script reads of an Episode object. *)
Record episode := { grandparentRatingKey : Z }.

(** The Plex server, as far as the script queries it: the movies and the
    episodes added within the lookback period, and the lookup of an item by
    its rating key. *)
Record PlexServer := {
  search : list media;
  searchEpisodes : list episode;
  fetchItem : Z -> media
}.

(** What the network does to the two requests of a run: the text of the
    exception each raises, if any, and the seconds elapsed since the start. *)
Record network := {
  send_raises : option str;
  get_raises : option str;
  elapsed : Z
}.

(** The effects of a run, in order. *)
Inductive event :=
| webhook_send (content : str) (embeds : list dhooks.Embed)
| print (text : str)
| requests_get (url : str).

(** Character limit of a discord message including embeds. *)
Definition message_max_length : Z := 4000.

(** The state of the loop over [counted_shows].  [episode_count] is the
    loop's local variable, which the code reads again after the loop; it
    is unbound until the body has run once. *)
Record tv_loop := {
  show_list : list str;
  total_episodes : Z;
  episode_count : option Z
}.

(** [embed_length], from the descriptions collected in [media_lists].  The
    division is reached only with a sum of at least [message_max_length],
    so with at least one list. *)
Definition embed_length (media_lists : list str) : Z :=
  let list_count := len media_lists in
  if sum (map len media_lists) <? message_max_length
  then message_max_length
  else message_max_length / list_count.

Section Main.

Variable cfg : config.
Variable plex : PlexServer.
Variable net : network.

(** [bullet += " "] *)
Definition bullet' : str := bullet cfg ++ lit " ".

(** [max_length_exceeded_msg = f"\n\n**{max_length_exceeded_msg}**"] *)
Definition max_length_exceeded_msg' : str :=
  [nl; nl] ++ lit "**" ++ max_length_exceeded_msg cfg ++ lit "**".

(** *** Movies *)

Definition new_movies_formatted (new_movies : list media) : list str :=
  map clean_year new_movies.

Definition movies_str (new_movies : list media) : str :=
  bullet' ++ join ([nl] ++ bullet') (new_movies_formatted new_movies).

Definition movie_title (new_movies : list media) : str :=
  let total_movies := len (new_movies_formatted new_movies) in
  let movies_title_counted :=
    lit "Movie" ++ (if negb (total_movies =? 1) then lit "s" else []) in
  str_of_Z total_movies ++ lit " " ++ movies_title_counted ++ lit " " ++ movie_emote cfg.

(** *** Shows *)

Definition newShows (new_eps : list episode) : list str :=
  map (fun episode => clean_year (fetchItem plex (grandparentRatingKey episode))) new_eps.

Definition counted_shows (new_eps : list episode) : list (str * Z) :=
  Counter (newShows new_eps).

(** One turn of the loop over the keys of [counted_shows]; [count] is the
    [episode_count] of this turn. *)
Definition tv_loop_body (counted_shows : list (str * Z))
    (st : tv_loop) (counted_show : str) : tv_loop :=
  let count := Counter_get counted_shows counted_show in
  let episodes_counted := lit "episode" ++ (if count >? 1 then lit "s" else []) in
  let line :=
    if show_individual_episodes cfg
    then bullet' ++ counted_show ++ lit " - *" ++ str_of_Z count ++ lit " "
         ++ episodes_counted ++ lit "*"
    else bullet' ++ counted_show in
  {| show_list := show_list st ++ [line];
     total_episodes := total_episodes st + count;
     episode_count := Some count |}.

Definition tv_loop_run (new_eps : list episode) : tv_loop :=
  fold_left (tv_loop_body (counted_shows new_eps))
    (Counter_keys (counted_shows new_eps))
    {| show_list := []; total_episodes := 0; episode_count := None |}.

(** [show_list] after [show_list.sort()]. *)
Definition sorted_show_list (new_eps : list episode) : list str :=
  StrSort.sort (show_list (tv_loop_run new_eps)).

Definition total_shows (new_eps : list episode) : Z :=
  len (sorted_show_list new_eps).

Definition tv_str (new_eps : list episode) : str :=
  join [nl] (sorted_show_list new_eps).

(** [elif episode_count > 1], on the variable the loop left behind. *)
Definition last_episode_count_gt_1 (new_eps : list episode) : bool :=
  match episode_count (tv_loop_run new_eps) with
  | Some count => count >? 1
  | None => false
  end.

Definition show_title_counted (new_eps : list episode) : str :=
  if total_shows new_eps >? 1 then lit "Show" ++ lit "s"
  else if last_episode_count_gt_1 new_eps then lit "Show" ++ lit "s"
  else lit "Show".

Definition episode_title_counted (new_eps : list episode) : str :=
  if total_shows new_eps >? 1 then lit "Episode" ++ lit "s"
  else lit "Episode".

Definition tv_title (new_eps : list episode) : str :=
  if show_total_episodes cfg
  then str_of_Z (total_shows new_eps) ++ lit " " ++ show_title_counted new_eps
       ++ lit " / " ++ str_of_Z (total_episodes (tv_loop_run new_eps)) ++ lit " "
       ++ episode_title_counted new_eps ++ lit " " ++ tv_emote cfg
  else str_of_Z (total_shows new_eps) ++ lit " " ++ show_title_counted new_eps
       ++ lit " " ++ tv_emote cfg.

(** *** The run

    A section is the title and the description of an embed to be.  The two
    flags [skip_movies] and [skip_tv], which the code raises when a library
    has nothing new, are the [None] of the two results below. *)

Definition movies_section : option (str * str) :=
  if skip_movies cfg then None
  else
    let new_movies := search plex in
    match new_movies with
    | [] => None
    | _ => Some (movie_title new_movies, movies_str new_movies)
    end.

Definition tv_section : option (str * str) :=
  if skip_tv cfg then None
  else
    let new_eps := searchEpisodes plex in
    match new_eps with
    | [] => None
    | _ => Some (tv_title new_eps, tv_str new_eps)
    end.

Definition media_lists : list str :=
  match movies_section with Some (_, s) => [s] | None => [] end
  ++ match tv_section with Some (_, s) => [s] | None => [] end.

Definition webhook_embeds : list dhooks.Embed :=
  let embeds := [] in
  let embeds :=
    match movies_section with
    | Some (t, s) =>
        create_embeds max_length_exceeded_msg' embeds t s (movie_embed_colour cfg)
          (embed_length media_lists)
    | None => embeds
    end in
  let embeds :=
    match tv_section with
    | Some (t, s) =>
        create_embeds max_length_exceeded_msg' embeds t s (tv_embed_colour cfg)
          (embed_length media_lists)
    | None => embeds
    end in
  map (dhooks.set_thumbnail (embed_thumbnail cfg)) embeds.

Definition no_media_text : str :=
  lit "No new/specified media to notify about - message not sent.".

Definition sending : list event :=
  match webhook_embeds with
  | [] => [print no_media_text]
  | _ :: _ =>
      webhook_send (message_title cfg) webhook_embeds
      :: match send_raises net with
         | Some err => [print (lit "There was an error sending the message: " ++ err)]
         | None => []
         end
  end.

Definition pinging : list event :=
  match uptime_status cfg with
  | Some url =>
      if (0 <? len url)
      then requests_get (url ++ str_of_Z (elapsed net))
           :: match get_raises net with
              | Some err =>
                  [print (lit "There was an error pinging the uptime status monitor: "
                          ++ err)]
              | None => []
              end
      else []
  | None => []
  end.

(** The main block, from the connection to Plex on. *)
Definition main : list event := sending ++ pinging.

End Main.

(** ** The header of the message

    The main block first turns [lookback_period], a magnitude followed by
    one letter for the unit, into the words of the header.  Indexing and the
    lookup in [period_dict] can raise; an exception ends the run. *)

Inductive exn :=
| IndexError
| KeyError (key : str).

(** [s[-1]], a string of one character. *)
Definition getitem_last (s : str) : exn + str :=
  match rev s with
  | [] => inl IndexError
  | c :: _ => inr [c]
  end.

Definition period_dict : list (str * str) :=
  [ (lit "m", lit "minute"); (lit "h", lit "hour");
    (lit "d", lit "day"); (lit "w", lit "week") ].

(** [d[k]] on a dict of strings. *)
Fixpoint dict_getitem (d : list (str * str)) (k : str) : exn + str :=
  match d with
  | [] => inl (KeyError k)
  | (k', v) :: d' => if str_eq_dec k k' then inr v else dict_getitem d' k
  end.

Definition lookback_text (lookback_period : str) : exn + str :=
  if str_eq_dec (slice_to lookback_period (-1)) (lit "1") then
    match getitem_last lookback_period with
    | inl e => inl e
    | inr unit => dict_getitem period_dict unit
    end
  else
    match getitem_last lookback_period with
    | inl e => inl e
    | inr unit =>
        match dict_getitem period_dict unit with
        | inl e => inl e
        | inr name =>
            inr (slice_to lookback_period (-1) ++ lit " " ++ name ++ lit "s")
        end
    end.

(** [message_title = f"_ _\n**{message_title} {lookback_text}:**"] *)
Definition formatted_message_title (message_title lookback_period : str)
    : exn + str :=
  match lookback_text lookback_period with
  | inl e => inl e
  | inr text =>
      inr (lit "_ _" ++ [nl] ++ lit "**" ++ message_title ++ lit " " ++ text
           ++ lit ":**")
  end.

(** ** Notions used to state the properties *)

(** The order of [<=] and [<] on strings, as propositions. *)
Definition str_le (a b : str) : Prop := PyStr.leb a b = true.
Definition str_lt (a b : str) : Prop := PyStr.ltb a b = true.

(** [year_regex] after its leading [.*]. *)
Definition year_tail : list Re.item := tl year_regex.

(** The line of [show_list] for a show and its count. *)
Definition show_line (cfg : config) (counted_show : str) (count : Z) : str :=
  if show_individual_episodes cfg
  then bullet' cfg ++ counted_show ++ lit " - *" ++ str_of_Z count ++ lit " "
       ++ (lit "episode" ++ (if count >? 1 then lit "s" else [])) ++ lit "*"
  else bullet' cfg ++ counted_show.

(** When the title reads "Shows": several shows, or a single show with
    several new episodes. *)
Definition several_shows_or_episodes (cfg : config) (plex : PlexServer)
    (new_eps : list episode) : Prop :=
  total_shows cfg plex new_eps > 1
  \/ (total_shows cfg plex new_eps = 1
      /\ exists t n, counted_shows plex new_eps = [(t, n)] /\ n > 1).

(** The series of the episodes, each once. *)
Definition distinct_series (new_eps : list episode) : list Z :=
  nodup Z.eq_dec (map grandparentRatingKey new_eps).

(** The six characters of a year from 1000 to 2999 in parentheses. *)
Definition year_in_parentheses (w : str) : bool :=
  match w with
  | [a; b; c; d; e; f] =>
      Re.is_char "(" a && Re.either "1" "2" b
      && Re.range "0" "9" c && Re.range "0" "9" d && Re.range "0" "9" e
      && Re.is_char ")" f
  | _ => false
  end.

(** The title ends with such a year: its last six characters are one. *)
Definition ends_with_year (t : str) : bool :=
  year_in_parentheses (skipn (length t - 6) t).

(** The sections of a run in the order their embeds are made, the movies
    first: title, text and colour. *)
Definition sections (cfg : config) (plex : PlexServer) : list (str * str * Z) :=
  match movies_section cfg plex with
  | Some (t, s) => [(t, s, movie_embed_colour cfg)]
  | None => []
  end
  ++ match tv_section cfg plex with
     | Some (t, s) => [(t, s, tv_embed_colour cfg)]
     | None => []
     end.

(** The text of a section as its embed carries it. *)
Definition delivered_text (cfg : config) (plex : PlexServer) (body : str) : str :=
  if len body >? embed_length (media_lists cfg plex)
  then trim_on_newlines (max_length_exceeded_msg' cfg) body
         (embed_length (media_lists cfg plex))
  else body.

(** The embed of a section. *)
Definition section_embed (cfg : config) (plex : PlexServer)
    (section : str * str * Z) : dhooks.Embed :=
  let '(t, s, c) := section in
  {| dhooks.title := t;
     dhooks.description := delivered_text cfg plex s;
     dhooks.color := c;
     dhooks.thumbnail := Some (embed_thumbnail cfg) |}.

(** A newline at an index below [bound]. *)
Definition newline_before (bound : Z) (s : str) : Prop :=
  exists j : nat, Z.of_nat j < bound /\ nth_error s j = Some nl.

Definition is_webhook_send (e : event) : bool :=
  match e with
  | webhook_send _ _ => true
  | _ => false
  end.

Definition is_requests_get (e : event) : bool :=
  match e with
  | requests_get _ => true
  | _ => false
  end.

(** ** A small library, to run the definitions on *)

Module Sample.

(** A configuration with the two episode-count options as given; the
    bullet is U+2022 and the emotes are U+1F3AC and U+1F4FA. *)
Definition cfg (per_show total : bool) : config :=
  {| skip_movies := false;
     skip_tv := false;
     show_total_episodes := total;
     show_individual_episodes := per_show;
     message_title := [95; 32; 95; 10]%N ++ lit "**New in the last 24 hours:**";
     embed_thumbnail := lit "https://example.org/plex.png";
     bullet := [8226%N];
     movie_embed_colour := 15048717;
     tv_embed_colour := 15048717;
     movie_emote := [127916%N];
     tv_emote := [128250%N];
     max_length_exceeded_msg := lit "More on Plex";
     uptime_status := None |}.

(** The shows of the library, by rating key: 1 and 4 are two series with
    the same title and year. *)
Definition show (key : Z) : media :=
  if key =? 2 then {| title := lit "Bar"; year := 1999 |}
  else if key =? 3 then {| title := lit "Foo (2020) (US)"; year := 2021 |}
  else {| title := lit "Foo"; year := 2020 |}.

Definition ep (key : Z) : episode := {| grandparentRatingKey := key |}.

Definition plex (new_movies : list media) (new_eps : list episode) : PlexServer :=
  {| search := new_movies; searchEpisodes := new_eps; fetchItem := show |}.

Definition net : network :=
  {| send_raises := None; get_raises := None; elapsed := 2 |}.

Definition dune : media := {| title := lit "Dune (2021)"; year := 2021 |}.

(** A movie whose title is a single line of 4100 characters. *)
Definition long_movie : media := {| title := repeat 97%N 4100; year := 2020 |}.

End Sample.

(** Fifty new movies with titles of 99 characters: a text of fifty lines
    and 5449 characters. *)
Definition fifty_movies : list media :=
  repeat {| title := repeat 97%N 99; year := 2020 |} 50.

(** * Properties *)

(** ** The order on strings and the sorted list *)

Section StrOrderFacts.

Lemma cmp_refl (a : str) : cmp a a = Eq.
Proof.
  induction a as [|x a IH]; simpl; [reflexivity|].
  now rewrite N.compare_refl.
Qed.

Lemma cmp_eq (a b : str) : cmp a b = Eq -> a = b.
Proof.
  revert b; induction a as [|x a IH]; intros [|y b]; simpl; try easy.
  destruct (N.compare_spec x y) as [E|L|G]; try easy.
  intros H; subst; f_equal; auto.
Qed.

Lemma cmp_antisym (a b : str) : cmp b a = CompOpp (cmp a b).
Proof.
  revert b; induction a as [|x a IH]; intros [|y b]; simpl; try easy.
  rewrite (N.compare_antisym x y).
  destruct (x ?= y)%N; simpl; auto.
Qed.

Lemma cmp_app (p a b : str) : cmp (p ++ a) (p ++ b) = cmp a b.
Proof.
  induction p as [|x p IH]; simpl; [reflexivity|].
  now rewrite N.compare_refl.
Qed.

Lemma leb_trans (a b c : str) :
  PyStr.leb a b = true -> PyStr.leb b c = true -> PyStr.leb a c = true.
Proof.
  unfold PyStr.leb.
  revert b c; induction a as [|x a IH]; intros [|y b] [|z c]; simpl; try easy.
  destruct (N.compare_spec x y) as [E1|L1|G1]; try easy;
    destruct (N.compare_spec y z) as [E2|L2|G2]; try easy; subst.
  - rewrite N.compare_refl. apply IH.
  - intros _ _. apply N.compare_lt_iff in L2. now rewrite L2.
  - intros _ _. apply N.compare_lt_iff in L1. now rewrite L1.
  - intros _ _. assert (L : (x < z)%N) by lia.
    apply N.compare_lt_iff in L. now rewrite L.
Qed.

Lemma leb_antisym (a b : str) :
  PyStr.leb a b = true -> PyStr.leb b a = true -> a = b.
Proof.
  unfold PyStr.leb. rewrite (cmp_antisym a b).
  destruct (cmp a b) eqn:E; simpl; try easy.
  intros _ _. now apply cmp_eq.
Qed.

Lemma leb_refl (a : str) : PyStr.leb a a = true.
Proof. unfold PyStr.leb. now rewrite cmp_refl. Qed.

(** Strictly below: below and different. *)
Lemma ltb_leb_neq (a b : str) :
  PyStr.ltb a b = true <-> PyStr.leb a b = true /\ a <> b.
Proof.
  unfold PyStr.ltb, PyStr.leb. split.
  - destruct (cmp a b) eqn:E; try easy. intros _. split; [reflexivity|].
    intros ->. now rewrite cmp_refl in E.
  - intros [H N]. destruct (cmp a b) eqn:E; try easy.
    exfalso. apply N. now apply cmp_eq.
Qed.

End StrOrderFacts.

Lemma sort_StronglySorted (l : list str) : StronglySorted str_le (StrSort.sort l).
Proof.
  apply (StrSort.StronglySorted_sort l).
  intros a b c. apply leb_trans.
Qed.

(** An ascending list is determined by its elements. *)
Lemma StronglySorted_unique (l l' : list str) :
  StronglySorted str_le l -> StronglySorted str_le l' ->
  Permutation l l' -> l = l'.
Proof.
  revert l'; induction l as [|x l IH]; intros l' Hl Hl' P.
  - now apply Permutation_nil in P.
  - destruct l' as [|y l'].
    + symmetry in P. now apply Permutation_nil in P.
    + inversion Hl as [|? ? Sl Fx]; inversion Hl' as [|? ? Sl' Fy]; subst.
      assert (E : x = y).
      { assert (Ix : In x (y :: l')) by (eapply Permutation_in; [exact P | now left]).
        assert (Iy : In y (x :: l))
          by (eapply Permutation_in; [symmetry; exact P | now left]).
        destruct Ix as [->|Ix]; [reflexivity|].
        destruct Iy as [->|Iy]; [reflexivity|].
        rewrite Forall_forall in Fx, Fy.
        apply leb_antisym; [apply Fx, Iy | apply Fy, Ix]. }
      subst y. f_equal. apply IH; auto.
      now apply Permutation_cons_inv in P.
Qed.

Lemma sort_of_Permutation (l l' : list str) :
  Permutation l l' -> StrSort.sort l = StrSort.sort l'.
Proof.
  intros P. apply StronglySorted_unique; try apply sort_StronglySorted.
  rewrite <- (StrSort.Permuted_sort l), <- (StrSort.Permuted_sort l'). exact P.
Qed.

(** ** [Counter] *)

Section CounterFacts.

Lemma Counter_get_add (k k' : str) (c : list (str * Z)) :
  Counter_get (Counter_add k c) k'
  = Counter_get c k' + (if str_eq_dec k' k then 1 else 0).
Proof.
  induction c as [|[k0 n] c IH]; simpl.
  - destruct (str_eq_dec k' k); lia.
  - destruct (str_eq_dec k k0) as [->|N]; simpl.
    + destruct (str_eq_dec k' k0); lia.
    + destruct (str_eq_dec k' k0) as [->|N'].
      * destruct (str_eq_dec k0 k); [congruence | lia].
      * apply IH.
Qed.

Lemma Counter_keys_add (k : str) (c : list (str * Z)) :
  Counter_keys (Counter_add k c)
  = if in_dec str_eq_dec k (Counter_keys c) then Counter_keys c
    else Counter_keys c ++ [k].
Proof.
  unfold Counter_keys.
  induction c as [|[k0 n] c IH]; simpl; [reflexivity|].
  destruct (str_eq_dec k k0) as [->|N]; simpl.
  - destruct (str_eq_dec k0 k0); [reflexivity | congruence].
  - rewrite IH. destruct (str_eq_dec k0 k); [congruence|].
    now destruct (in_dec str_eq_dec k (map fst c)).
Qed.

Lemma Counter_sum_add (k : str) (c : list (str * Z)) :
  sum (map snd (Counter_add k c)) = sum (map snd c) + 1.
Proof.
  induction c as [|[k0 n] c IH]; simpl; [lia|].
  destruct (str_eq_dec k k0); simpl; lia.
Qed.

Lemma Counter_keys_add_NoDup (k : str) (c : list (str * Z)) :
  NoDup (Counter_keys c) -> NoDup (Counter_keys (Counter_add k c)).
Proof.
  intros H. rewrite Counter_keys_add.
  destruct (in_dec str_eq_dec k (Counter_keys c)) as [I|I]; [exact H|].
  apply NoDup_app; [exact H | |].
  - repeat constructor. intros [].
  - intros x Hx [->|[]]. contradiction.
Qed.

Lemma Counter_keys_add_In (k k' : str) (c : list (str * Z)) :
  In k' (Counter_keys (Counter_add k c)) <-> In k' (Counter_keys c) \/ k' = k.
Proof.
  rewrite Counter_keys_add.
  destruct (in_dec str_eq_dec k (Counter_keys c)) as [I|I].
  - split; [auto|]. intros [H| ->]; auto.
  - rewrite in_app_iff. simpl. intuition congruence.
Qed.

(** The invariants of the fold that builds a counter, from any counter [c]
    on. *)
Lemma Counter_fold (l : list str) (c : list (str * Z)) :
  let c' := fold_left (fun c k => Counter_add k c) l c in
  (NoDup (Counter_keys c) -> NoDup (Counter_keys c'))
  /\ (forall k, In k (Counter_keys c') <-> In k (Counter_keys c) \/ In k l)
  /\ (forall k, Counter_get c' k
                = Counter_get c k + Z.of_nat (count_occ str_eq_dec l k))
  /\ sum (map snd c') = sum (map snd c) + len l.
Proof.
  revert c; induction l as [|x l IH]; intros c; simpl.
  - repeat split; auto; try tauto; unfold len; simpl; lia.
  - destruct (IH (Counter_add x c)) as (H1 & H2 & H3 & H4).
    repeat split.
    + intros H. apply H1. now apply Counter_keys_add_NoDup.
    + rewrite H2, Counter_keys_add_In. intuition.
    + rewrite H2, Counter_keys_add_In. intuition.
    + intros k. rewrite H3, Counter_get_add.
      destruct (str_eq_dec x k) as [->|N].
      * destruct (str_eq_dec k k); [lia | congruence].
      * destruct (str_eq_dec k x); [congruence | lia].
    + rewrite H4, Counter_sum_add. unfold len. simpl length. lia.
Qed.

Lemma Counter_keys_NoDup (l : list str) : NoDup (Counter_keys (Counter l)).
Proof. apply (Counter_fold l []). constructor. Qed.

Lemma Counter_keys_In (l : list str) (k : str) :
  In k (Counter_keys (Counter l)) <-> In k l.
Proof.
  unfold Counter.
  destruct (Counter_fold l []) as (_ & H & _). rewrite H. simpl. tauto.
Qed.

Lemma Counter_get_count (l : list str) (k : str) :
  Counter_get (Counter l) k = Z.of_nat (count_occ str_eq_dec l k).
Proof.
  unfold Counter.
  destruct (Counter_fold l []) as (_ & _ & H & _). rewrite H. reflexivity.
Qed.

Lemma Counter_sum (l : list str) : sum (map snd (Counter l)) = len l.
Proof.
  unfold Counter.
  destruct (Counter_fold l []) as (_ & _ & _ & H). rewrite H. reflexivity.
Qed.

(** With one entry per key, the entry of a key holds what [c[k]] reads. *)
Lemma Counter_get_In (c : list (str * Z)) (k : str) (n : Z) :
  NoDup (Counter_keys c) -> In (k, n) c -> Counter_get c k = n.
Proof.
  unfold Counter_keys.
  induction c as [|[k0 n0] c IH]; simpl; [easy|].
  intros H [E|I].
  - inversion E; subst. destruct (str_eq_dec k k); [reflexivity | congruence].
  - inversion H as [|? ? Hn Hc]; subst.
    destruct (str_eq_dec k k0) as [->|N]; [|auto].
    exfalso. apply Hn. change k0 with (fst (k0, n)). now apply in_map.
Qed.

Lemma Counter_map_get (c : list (str * Z)) :
  NoDup (Counter_keys c) -> map (Counter_get c) (Counter_keys c) = map snd c.
Proof.
  intros H. unfold Counter_keys. rewrite map_map. apply map_ext_in.
  intros [k n] I. simpl. now apply Counter_get_In.
Qed.

Lemma Counter_In (l : list str) (k : str) (n : Z) :
  In (k, n) (Counter l)
  <-> In k l /\ n = Z.of_nat (count_occ str_eq_dec l k).
Proof.
  split.
  - intros I. split.
    + apply Counter_keys_In. change k with (fst (k, n)). now apply in_map.
    + rewrite <- Counter_get_count. symmetry.
      apply Counter_get_In; [apply Counter_keys_NoDup | exact I].
  - intros [I ->]. apply Counter_keys_In in I.
    unfold Counter_keys in I. apply in_map_iff in I.
    destruct I as ([k' n'] & E & I). simpl in E. subst k'.
    rewrite <- Counter_get_count.
    rewrite (Counter_get_In _ _ _ (Counter_keys_NoDup l) I). exact I.
Qed.

Lemma Counter_Permutation (l l' : list str) :
  Permutation l l' -> Permutation (Counter l) (Counter l').
Proof.
  intros P. apply NoDup_Permutation.
  - eapply NoDup_map_inv. apply (Counter_keys_NoDup l).
  - eapply NoDup_map_inv. apply (Counter_keys_NoDup l').
  - intros [k n]. rewrite !Counter_In.
    rewrite (Permutation_count_occ str_eq_dec l l') in P. rewrite (P k).
    split; intros [I E]; split; auto.
    + apply (count_occ_In str_eq_dec). apply (count_occ_In str_eq_dec) in I.
      now rewrite <- (P k).
    + apply (count_occ_In str_eq_dec). apply (count_occ_In str_eq_dec) in I.
      now rewrite (P k).
Qed.

End CounterFacts.

(** ** The loop over the counted shows *)

Section TvLoop.

Variable cfg : config.

Lemma tv_loop_fold (cs : list (str * Z)) (keys : list str) (st : tv_loop) :
  let st' := fold_left (tv_loop_body cfg cs) keys st in
  show_list st'
  = show_list st ++ map (fun k => show_line cfg k (Counter_get cs k)) keys
  /\ total_episodes st' = total_episodes st + sum (map (Counter_get cs) keys).
Proof.
  revert st; induction keys as [|k keys IH]; intros st; simpl.
  - rewrite app_nil_r. split; [reflexivity | lia].
  - destruct (IH (tv_loop_body cfg cs st k)) as [H1 H2].
    rewrite H1, H2. simpl. rewrite <- app_assoc. split; [reflexivity | lia].
Qed.

Variable plex : PlexServer.

Lemma show_list_lines (new_eps : list episode) :
  show_list (tv_loop_run cfg plex new_eps)
  = map (fun e => show_line cfg (fst e) (snd e)) (counted_shows plex new_eps).
Proof.
  unfold tv_loop_run.
  destruct (tv_loop_fold (counted_shows plex new_eps)
              (Counter_keys (counted_shows plex new_eps))
              {| show_list := []; total_episodes := 0; episode_count := None |})
    as [H _].
  rewrite H. simpl. unfold Counter_keys. rewrite map_map.
  apply map_ext_in. intros [k n] I. simpl. f_equal.
  apply Counter_get_In; [apply Counter_keys_NoDup | exact I].
Qed.

Lemma total_shows_len (new_eps : list episode) :
  total_shows cfg plex new_eps = len (counted_shows plex new_eps).
Proof.
  unfold total_shows, sorted_show_list, len.
  rewrite <- (Permutation_length (StrSort.Permuted_sort _)).
  now rewrite show_list_lines, length_map.
Qed.

Lemma counted_shows_nonempty (new_eps : list episode) :
  new_eps <> [] -> counted_shows plex new_eps <> [].
Proof.
  destruct new_eps as [|e l]; [easy|]. intros _ E.
  assert (I : In (clean_year (fetchItem plex (grandparentRatingKey e)))
                (Counter_keys (counted_shows plex (e :: l)))).
  { apply Counter_keys_In. now left. }
  rewrite E in I. exact I.
Qed.

End TvLoop.

(** ** Counting episodes *)

(** C10: the total of the per-show counts, which the shows title prints as
    the number of episodes, is the number of episodes found: no episode is
    dropped or counted twice. *)
Theorem total_episodes_is_episode_count
    (cfg : config) (plex : PlexServer) (new_eps : list episode) :
  total_episodes (tv_loop_run cfg plex new_eps) = len new_eps
  /\ sum (map snd (counted_shows plex new_eps)) = len new_eps.
Proof.
  assert (S : sum (map snd (counted_shows plex new_eps)) = len new_eps).
  { unfold counted_shows. rewrite Counter_sum. unfold newShows, len.
    now rewrite length_map. }
  split; [|exact S].
  unfold tv_loop_run.
  destruct (tv_loop_fold cfg (counted_shows plex new_eps)
              (Counter_keys (counted_shows plex new_eps))
              {| show_list := []; total_episodes := 0; episode_count := None |})
    as [_ H].
  rewrite H. simpl. rewrite Counter_map_get; [exact S|].
  apply Counter_keys_NoDup.
Qed.

(** C9, as the code has it: the counter holds one entry per distinct
    normalized title among the parent shows of the episodes, and the entry
    counts the episodes whose show has that title. *)
Theorem counted_shows_one_entry_per_title
    (plex : PlexServer) (new_eps : list episode) :
  NoDup (Counter_keys (counted_shows plex new_eps))
  /\ (forall t, In t (Counter_keys (counted_shows plex new_eps))
                <-> In t (newShows plex new_eps))
  /\ (forall t n, In (t, n) (counted_shows plex new_eps)
                  <-> In t (newShows plex new_eps)
                      /\ n = Z.of_nat (count_occ str_eq_dec (newShows plex new_eps) t)).
Proof.
  unfold counted_shows. split; [apply Counter_keys_NoDup|]. split.
  - intros t. apply Counter_keys_In.
  - intros t n. apply Counter_In.
Qed.

(** C6: with new episodes, "Show" gets its "s" exactly when there are
    several shows, or one show with several new episodes. *)
Theorem show_title_counted_plural
    (cfg : config) (plex : PlexServer) (new_eps : list episode) :
  new_eps <> [] ->
  total_shows cfg plex new_eps = len (counted_shows plex new_eps)
  /\ 1 <= total_shows cfg plex new_eps
  /\ (several_shows_or_episodes cfg plex new_eps ->
      show_title_counted cfg plex new_eps = lit "Shows")
  /\ (~ several_shows_or_episodes cfg plex new_eps ->
      show_title_counted cfg plex new_eps = lit "Show"
      /\ exists t, counted_shows plex new_eps = [(t, 1)]).
Proof.
  intros NE.
  pose proof (total_shows_len cfg plex new_eps) as L.
  pose proof (counted_shows_nonempty plex new_eps NE) as C.
  assert (P : 1 <= total_shows cfg plex new_eps).
  { rewrite L. unfold len. destruct (counted_shows plex new_eps); [easy|].
    simpl length. lia. }
  split; [exact L|]. split; [exact P|].
  unfold several_shows_or_episodes, show_title_counted.
  destruct (total_shows cfg plex new_eps >? 1) eqn:G.
  - split; [reflexivity|]. intros N. exfalso. apply N. left. lia.
  - assert (T1 : total_shows cfg plex new_eps = 1) by lia.
    assert (S : exists t n, counted_shows plex new_eps = [(t, n)]).
    { rewrite L in T1. unfold len in T1.
      destruct (counted_shows plex new_eps) as [|[t n] [|? ?]]; simpl in T1;
        try lia. now exists t, n. }
    destruct S as (t & n & E).
    assert (Ec : last_episode_count_gt_1 cfg plex new_eps = (n >? 1)).
    { unfold last_episode_count_gt_1, tv_loop_run. rewrite E. simpl.
      destruct (str_eq_dec t t); [reflexivity | congruence]. }
    rewrite Ec.
    assert (Pn : 1 <= n).
    { assert (I : In (t, n) (counted_shows plex new_eps)) by (rewrite E; now left).
      apply Counter_In in I. destruct I as [I ->].
      apply (count_occ_In str_eq_dec) in I. lia. }
    destruct (n >? 1) eqn:Gn.
    + split; [reflexivity|]. intros N. exfalso. apply N. right.
      split; [exact T1|]. exists t, n. split; [exact E | lia].
    + split.
      * intros [H|(_ & t' & n' & E' & H)]; [lia|].
        rewrite E in E'. inversion E'; subst. lia.
      * intros _. split; [reflexivity|]. exists t.
        replace n with 1 in E by lia. exact E.
Qed.

Lemma show_title_counted_plural_witness :
  show_title_counted (Sample.cfg true true) (Sample.plex [] [])
    [Sample.ep 1; Sample.ep 1; Sample.ep 1] = lit "Shows".
Proof.
  assert (NE : [Sample.ep 1; Sample.ep 1; Sample.ep 1] <> []) by discriminate.
  destruct (show_title_counted_plural (Sample.cfg true true) (Sample.plex [] [])
              [Sample.ep 1; Sample.ep 1; Sample.ep 1] NE) as (_ & _ & H & _).
  apply H. right. split; [reflexivity|].
  exists (lit "Foo (2020)"), 3. split; [reflexivity | lia].
Defined.

(** ** The order of the shows *)

Lemma StronglySorted_map_app (b : str) (l : list str) :
  StronglySorted str_le l -> StronglySorted str_le (map (app b) l).
Proof.
  induction 1 as [|x l S IH F]; simpl; constructor; auto.
  rewrite Forall_map. eapply Forall_impl; [|exact F].
  intros y H. unfold str_le, PyStr.leb in *. now rewrite cmp_app.
Qed.

Lemma StronglySorted_strict (l : list str) :
  NoDup l -> StronglySorted str_le l -> StronglySorted str_lt l.
Proof.
  intros N S; induction S as [|x l S IH F]; constructor.
  - apply IH. now inversion N.
  - inversion N as [|? ? Nx Nl]; subst.
    rewrite Forall_forall in *. intros y I.
    apply ltb_leb_neq. split; [now apply F|]. intros ->. contradiction.
Qed.

(** Without the count per show, sorting the lines sorts the titles. *)
Lemma sort_bulleted (b : str) (keys : list str) :
  StrSort.sort (map (app b) keys) = map (app b) (StrSort.sort keys).
Proof.
  apply StronglySorted_unique.
  - apply sort_StronglySorted.
  - apply StronglySorted_map_app, sort_StronglySorted.
  - rewrite <- (StrSort.Permuted_sort (map (app b) keys)).
    apply Permutation_map, StrSort.Permuted_sort.
Qed.

(** C4, as the code has it: the lines of the shows are in ascending order
    as lines, whatever the order of the episodes; where the lines carry no
    count, they are the bullet and the titles in strictly ascending order. *)
Theorem sorted_show_list_order
    (cfg : config) (plex : PlexServer) (new_eps new_eps' : list episode) :
  Permutation new_eps new_eps' ->
  sorted_show_list cfg plex new_eps = sorted_show_list cfg plex new_eps'
  /\ StronglySorted str_le (sorted_show_list cfg plex new_eps)
  /\ Permutation (sorted_show_list cfg plex new_eps)
       (map (fun e => show_line cfg (fst e) (snd e)) (counted_shows plex new_eps))
  /\ (show_individual_episodes cfg = false ->
      exists titles,
        sorted_show_list cfg plex new_eps = map (app (bullet' cfg)) titles
        /\ StronglySorted str_lt titles
        /\ Permutation titles (Counter_keys (counted_shows plex new_eps))).
Proof.
  intros P. unfold sorted_show_list. rewrite !show_list_lines.
  split; [|split; [|split]].
  - apply sort_of_Permutation, Permutation_map.
    apply Counter_Permutation. unfold newShows. now apply Permutation_map.
  - apply sort_StronglySorted.
  - symmetry. apply StrSort.Permuted_sort.
  - intros E. exists (StrSort.sort (Counter_keys (counted_shows plex new_eps))).
    split; [|split].
    + rewrite <- sort_bulleted. f_equal. unfold Counter_keys. rewrite map_map.
      apply map_ext. intros [k n]. unfold show_line. now rewrite E.
    + apply StronglySorted_strict; [|apply sort_StronglySorted].
      eapply Permutation_NoDup; [apply StrSort.Permuted_sort|].
      apply Counter_keys_NoDup.
    + symmetry. apply StrSort.Permuted_sort.
Qed.

Lemma sorted_show_list_order_witness :
  sorted_show_list (Sample.cfg false true) (Sample.plex [] [])
    [Sample.ep 1; Sample.ep 2; Sample.ep 1]
  = sorted_show_list (Sample.cfg false true) (Sample.plex [] [])
      [Sample.ep 1; Sample.ep 1; Sample.ep 2].
Proof.
  exact (proj1 (sorted_show_list_order (Sample.cfg false true) (Sample.plex [] [])
                  [Sample.ep 1; Sample.ep 2; Sample.ep 1]
                  [Sample.ep 1; Sample.ep 1; Sample.ep 2]
                  (perm_skip _ (perm_swap _ _ _)))).
Defined.

(** C4 fails with the count per show: the lines of "Foo (2020) (US) (2021)" and
    "Foo (2020)" come out in this order, the longer title first, since "("
    sorts before "-". *)
Lemma sorted_show_list_not_by_title :
  sorted_show_list (Sample.cfg true true) (Sample.plex [] [])
    [Sample.ep 1; Sample.ep 3]
  = [ show_line (Sample.cfg true true) (lit "Foo (2020) (US) (2021)") 1;
      show_line (Sample.cfg true true) (lit "Foo (2020)") 1 ]
  /\ PyStr.ltb (lit "Foo (2020)") (lit "Foo (2020) (US) (2021)") = true
  /\ PyStr.leb (lit "Foo (2020) (US) (2021)") (lit "Foo (2020)") = false.
Proof. vm_compute. repeat split. Qed.

(** C9 fails for two series with the same title and year: the episodes of
    the series 1 and 4 share one entry. *)
Lemma counted_shows_merges_equal_titles :
  distinct_series [Sample.ep 1; Sample.ep 4] = [1; 4]
  /\ counted_shows (Sample.plex [] []) [Sample.ep 1; Sample.ep 4]
     = [(lit "Foo (2020)", 2)].
Proof. vm_compute. split; reflexivity. Qed.

(** C7: one show with three new episodes is announced as "1 Shows / 3
    Episode": the word that gets the "s" is "Show". *)
Theorem tv_title_one_show_three_episodes :
  tv_title (Sample.cfg true true) (Sample.plex [] [])
    [Sample.ep 1; Sample.ep 1; Sample.ep 1]
  = lit "1 Shows / 3 Episode " ++ [128250%N].
Proof. vm_compute. reflexivity. Qed.

(** ** Trimming and what is delivered *)

Lemma endswith_app (a suffix : str) : endswith (a ++ suffix) suffix = true.
Proof.
  unfold endswith. rewrite length_app.
  replace (length a + length suffix - length suffix)%nat with (length a + 0)%nat by lia.
  rewrite skipn_app, skipn_all2 by lia.
  replace (length a + 0 - length a)%nat with 0%nat by lia. simpl.
  destruct (list_eq_dec N.eq_dec suffix suffix); [|congruence].
  apply Nat.leb_le. lia.
Qed.

(** What comes back from [trim_on_newlines] ends with the notice, trimmed
    or not. *)
Lemma trim_on_newlines_endswith (msg long_string : str) (max_length : Z) :
  endswith (trim_on_newlines msg long_string max_length) msg = true.
Proof.
  unfold trim_on_newlines.
  destruct (len long_string >? max_length); apply endswith_app.
Qed.

(** X4: the text [trim_on_newlines] returns ends with the overflow notice
    in both of its branches, whether or not anything was cut. *)
Theorem trim_on_newlines_always_notice (msg long_string : str) (max_length : Z) :
  (len long_string > max_length ->
   trim_on_newlines msg long_string max_length
   = slice_to long_string (rfind long_string nl 0 max_length) ++ msg)
  /\ (len long_string <= max_length ->
      trim_on_newlines msg long_string max_length = long_string ++ msg)
  /\ endswith (trim_on_newlines msg long_string max_length) msg = true.
Proof.
  split; [|split].
  - intros H. unfold trim_on_newlines.
    now replace (len long_string >? max_length) with true by lia.
  - intros H. unfold trim_on_newlines.
    now replace (len long_string >? max_length) with false by lia.
  - apply trim_on_newlines_endswith.
Qed.

Lemma trim_on_newlines_always_notice_witness :
  trim_on_newlines (lit "!") (lit "ab") 5 = lit "ab!"
  /\ endswith (trim_on_newlines (lit "!") (lit "ab") 5) (lit "!") = true.
Proof.
  destruct (trim_on_newlines_always_notice (lit "!") (lit "ab") 5) as (_ & H & E).
  split; [apply H; discriminate | exact E].
Defined.

Lemma create_embeds_In (msg : str) (embeds : list dhooks.Embed)
    (t d : str) (c max_length : Z) (e : dhooks.Embed) :
  In e (create_embeds msg embeds t d c max_length) ->
  In e embeds
  \/ dhooks.description e
     = if len d >? max_length then trim_on_newlines msg d max_length else d.
Proof.
  unfold create_embeds. rewrite in_app_iff. simpl.
  intros [I|[<-|[]]]; [now left | now right].
Qed.

Lemma create_embeds_description (msg : str) (embeds : list dhooks.Embed)
    (t d : str) (c max_length : Z) (e : dhooks.Embed) :
  In e (create_embeds msg embeds t d c max_length) ->
  In e embeds
  \/ ((len d <= max_length -> dhooks.description e = d)
      /\ (len d > max_length -> endswith (dhooks.description e) msg = true)).
Proof.
  intros I. apply create_embeds_In in I. destruct I as [I|E]; [now left|].
  right. rewrite E. destruct (len d >? max_length) eqn:G.
  - split; [lia|]. intros _. apply trim_on_newlines_endswith.
  - split; [reflexivity | lia].
Qed.

(** C1 fails for a short section: one new movie is delivered as its bullet
    line alone, and that does not end with the notice. *)
Lemma short_description_without_notice :
  map dhooks.description
    (webhook_embeds (Sample.cfg true true) (Sample.plex [Sample.dune] []))
  = [[8226%N] ++ lit " Dune (2021)"]
  /\ endswith ([8226%N] ++ lit " Dune (2021)")
       (max_length_exceeded_msg' (Sample.cfg true true)) = false.
Proof. vm_compute. split; reflexivity. Qed.

(** C2: a section of one line of 4109 characters, allowed 4000, has no
    newline to cut at: [rfind] answers -1, the slice drops the last character
    only, and 4108 characters are delivered before the notice. *)
Theorem trim_without_newline_in_reach :
  let body := movies_str (Sample.cfg true true) [Sample.long_movie] in
  let notice := max_length_exceeded_msg' (Sample.cfg true true) in
  len body = 4109
  /\ embed_length [body] = 4000
  /\ rfind body nl 0 4000 = -1
  /\ trim_on_newlines notice body 4000 = firstn 4108 body ++ notice
  /\ map dhooks.description
       (webhook_embeds (Sample.cfg true true) (Sample.plex [Sample.long_movie] []))
     = [firstn 4108 body ++ notice].
Proof. vm_compute. repeat split. Qed.

(** ** The allowed length *)

(** A run makes at most two sections. *)
Lemma media_lists_count (cfg : config) (plex : PlexServer) :
  0 <= len (media_lists cfg plex) <= 2.
Proof.
  unfold media_lists, len.
  destruct (movies_section cfg plex) as [[? ?]|];
    destruct (tv_section cfg plex) as [[? ?]|]; simpl; lia.
Qed.

(** C3: below the budget every section is allowed the whole budget;
    otherwise each is allowed the budget divided by the number of sections,
    and with one or two sections the allowances add up to the budget. *)
Theorem embed_length_allocation (media_lists : list str) :
  (sum (map len media_lists) < message_max_length ->
   embed_length media_lists = message_max_length)
  /\ (message_max_length <= sum (map len media_lists) ->
      embed_length media_lists = message_max_length / len media_lists
      /\ (len media_lists = 1 \/ len media_lists = 2 ->
          sum (map (fun _ => embed_length media_lists) media_lists)
          = message_max_length)).
Proof.
  unfold embed_length.
  destruct (sum (map len media_lists) <? message_max_length) eqn:L.
  - split; [reflexivity | lia].
  - split; [lia|]. intros _. split; [reflexivity|].
    unfold len, message_max_length.
    destruct media_lists as [|a [|b [|c l]]]; simpl length; intros [H|H];
      try lia; reflexivity.
Qed.

Lemma embed_length_allocation_witness :
  embed_length [lit "Dune (2021)"] = message_max_length
  /\ embed_length [repeat 97%N 2500; repeat 98%N 2500] = message_max_length / 2
  /\ sum (map (fun _ => embed_length [repeat 97%N 2500; repeat 98%N 2500])
            [repeat 97%N 2500; repeat 98%N 2500]) = message_max_length.
Proof.
  split.
  - apply (proj1 (embed_length_allocation [lit "Dune (2021)"])). vm_compute. reflexivity.
  - assert (H : message_max_length
                <= sum (map len [repeat 97%N 2500; repeat 98%N 2500]))
      by (vm_compute; discriminate).
    destruct (proj2 (embed_length_allocation [repeat 97%N 2500; repeat 98%N 2500]) H)
      as [E S].
    split; [exact E|]. apply S. right. reflexivity.
Defined.

(** ** Nothing new *)

Lemma pinging_sends_nothing (cfg : config) (net : network)
    (content : str) (embeds : list dhooks.Embed) :
  ~ In (webhook_send content embeds) (pinging cfg net).
Proof.
  unfold pinging. destruct (uptime_status cfg) as [url|]; [|easy].
  destruct (0 <? len url); [|easy].
  destruct (get_raises net); simpl; intuition discriminate.
Qed.

(** C8: when each library is skipped or has nothing new, no section is
    made, the webhook is not called, and the run prints that there is
    nothing to notify about. *)
Theorem no_sections_no_message
    (cfg : config) (plex : PlexServer) (net : network) :
  skip_movies cfg = true \/ search plex = [] ->
  skip_tv cfg = true \/ searchEpisodes plex = [] ->
  media_lists cfg plex = []
  /\ webhook_embeds cfg plex = []
  /\ main cfg plex net = print no_media_text :: pinging cfg net
  /\ forall content embeds, ~ In (webhook_send content embeds) (main cfg plex net).
Proof.
  intros Hm Ht.
  assert (M : movies_section cfg plex = None).
  { unfold movies_section. destruct Hm as [-> | ->]; [reflexivity|].
    now destruct (skip_movies cfg). }
  assert (T : tv_section cfg plex = None).
  { unfold tv_section. destruct Ht as [-> | ->]; [reflexivity|].
    now destruct (skip_tv cfg). }
  assert (W : webhook_embeds cfg plex = []).
  { unfold webhook_embeds. now rewrite M, T. }
  assert (E : main cfg plex net = print no_media_text :: pinging cfg net).
  { unfold main, sending. now rewrite W. }
  repeat split.
  - unfold media_lists. now rewrite M, T.
  - exact W.
  - exact E.
  - intros content embeds. rewrite E. intros [H|H]; [discriminate|].
    revert H. apply pinging_sends_nothing.
Qed.

Lemma no_sections_no_message_witness :
  main (Sample.cfg true true) (Sample.plex [] []) Sample.net
  = [print no_media_text].
Proof.
  exact (proj1 (proj2 (proj2
           (no_sections_no_message (Sample.cfg true true) (Sample.plex [] [])
              Sample.net (or_intror eq_refl) (or_intror eq_refl))))).
Defined.

(** ** Titles that hold a newline *)

(** C5: [.] does not match a newline and [$] also matches before a final
    newline, so a title whose year in parentheses follows a newline gets the
    year a second time, and a title that ends in a newline after the year
    is left as it is. *)
Theorem clean_year_newline_titles :
  clean_year {| title := lit "The Flash" ++ [nl] ++ lit "(2014)"; year := 2014 |}
  = lit "The Flash" ++ [nl] ++ lit "(2014) (2014)"
  /\ endswith (lit "The Flash" ++ [nl] ++ lit "(2014)") (lit "(2014)") = true
  /\ clean_year {| title := lit "The Flash (2014)" ++ [nl]; year := 2014 |}
     = lit "The Flash (2014)" ++ [nl]
  /\ endswith (lit "The Flash (2014)" ++ [nl]) (lit ")") = false.
Proof. vm_compute. repeat split. Qed.

(** ** [rfind] and the cut *)

Section Rfind.

Variable c : char.

(** The scan answers -1 when no index of the window holds [c], and the
    highest such index otherwise. *)
Lemma rfind_aux_spec (s : str) (i a b : Z) :
  0 <= i ->
  (rfind_aux c s i a b = -1
   /\ forall j, (j < length s)%nat -> a <= i + Z.of_nat j < b ->
                nth_error s j <> Some c)
  \/ exists j, (j < length s)%nat
       /\ rfind_aux c s i a b = i + Z.of_nat j
       /\ a <= i + Z.of_nat j < b
       /\ nth_error s j = Some c
       /\ forall j', (j < j' < length s)%nat -> a <= i + Z.of_nat j' < b ->
                     nth_error s j' <> Some c.
Proof.
  revert i; induction s as [|x t IH]; intros i Hi.
  - left. split; [reflexivity|]. simpl. intros j H. lia.
  - simpl rfind_aux.
    destruct (IH (i + 1) ltac:(lia)) as [[E N]|(j & Hj & E & W & X & N)].
    + rewrite E. simpl (0 <=? -1).
      destruct ((a <=? i) && (i <? b) && (x =? c)%N) eqn:T.
      * right. exists 0%nat.
        apply andb_prop in T. destruct T as [T Tx].
        apply andb_prop in T. destruct T as [Ta Tb].
        apply N.eqb_eq in Tx. subst x.
        repeat split; simpl; try lia.
        intros [|j'] Hj' Hw; [lia|]. simpl. apply N; [simpl in Hj'|]; lia.
      * left. split; [reflexivity|].
        intros [|j] Hj Hw; simpl.
        -- intros Ex. inversion Ex; subst.
           rewrite N.eqb_refl, andb_true_r in T.
           apply andb_false_iff in T. destruct T as [T|T]; lia.
        -- apply N; [simpl in Hj|]; lia.
    + rewrite E.
      destruct (0 <=? i + 1 + Z.of_nat j) eqn:P; [|lia].
      right. exists (S j). simpl length.
      repeat split; try lia; try exact X.
      intros [|j'] Hj' Hw; [lia|]. simpl. apply N; lia.
Qed.

(** From the start of a string up to a bound within it, no bound is
    adjusted. *)
Lemma rfind_window (s : str) (stop : Z) :
  0 <= stop <= len s -> rfind s c 0 stop = rfind_aux c s 0 0 stop.
Proof.
  intros H. unfold rfind, adjust.
  replace (stop <? 0) with false by lia. simpl (0 <? 0).
  now rewrite !Z.min_l by lia.
Qed.

End Rfind.

(** X2: where one of the first [max_length] characters is a newline, the
    text is cut at the last of them, which leaves fewer than [max_length]
    characters before the notice. *)
Theorem trim_on_newlines_cut (msg long_string : str) (max_length : Z) :
  len long_string > max_length ->
  (exists j, Z.of_nat j < max_length /\ nth_error long_string j = Some nl) ->
  exists e : nat,
    trim_on_newlines msg long_string max_length = firstn e long_string ++ msg
    /\ len (firstn e long_string) = Z.of_nat e
    /\ Z.of_nat e < max_length
    /\ nth_error long_string e = Some nl
    /\ forall j, (e < j)%nat -> Z.of_nat j < max_length ->
                 nth_error long_string j <> Some nl.
Proof.
  intros L (j0 & B0 & X0).
  assert (Lj : (j0 < length long_string)%nat).
  { apply nth_error_Some. rewrite X0. discriminate. }
  unfold trim_on_newlines. unfold len in L.
  replace (len long_string >? max_length) with true by (unfold len; lia).
  rewrite rfind_window by (unfold len; lia).
  destruct (rfind_aux_spec nl long_string 0 0 max_length ltac:(lia))
    as [[_ N]|(j & Hj & E & W & X & N)].
  - exfalso. apply (N j0 Lj); [lia | exact X0].
  - exists j. rewrite E. unfold slice_to, adjust, len.
    replace (0 + Z.of_nat j <? 0) with false by lia.
    rewrite Z.min_l by lia. simpl (0 + _). rewrite Nat2Z.id.
    repeat split; try lia; try exact X.
    + rewrite length_firstn. lia.
    + intros j' H1 H2. destruct (Nat.lt_ge_cases j' (length long_string)) as [H|H].
      * apply N; lia.
      * apply nth_error_None in H. rewrite H. discriminate.
Qed.

Lemma trim_on_newlines_cut_witness :
  exists e : nat,
    trim_on_newlines (lit "!") (lit "ab" ++ [nl] ++ lit "cdef" ++ [nl] ++ lit "g") 6
    = firstn e (lit "ab" ++ [nl] ++ lit "cdef" ++ [nl] ++ lit "g") ++ lit "!"
    /\ len (firstn e (lit "ab" ++ [nl] ++ lit "cdef" ++ [nl] ++ lit "g")) = Z.of_nat e
    /\ Z.of_nat e < 6
    /\ nth_error (lit "ab" ++ [nl] ++ lit "cdef" ++ [nl] ++ lit "g") e = Some nl
    /\ forall j, (e < j)%nat -> Z.of_nat j < 6 ->
         nth_error (lit "ab" ++ [nl] ++ lit "cdef" ++ [nl] ++ lit "g") j <> Some nl.
Proof.
  apply (trim_on_newlines_cut (lit "!")
           (lit "ab" ++ [nl] ++ lit "cdef" ++ [nl] ++ lit "g") 6).
  - reflexivity.
  - exists 2%nat. split; reflexivity.
Defined.

(** X3: where none of the first [max_length] characters is a newline, only
    the last character of the text is dropped. *)
Theorem trim_on_newlines_no_cut (msg long_string : str) (max_length : Z) :
  len long_string > max_length ->
  0 <= max_length ->
  (forall j, Z.of_nat j < max_length -> nth_error long_string j <> Some nl) ->
  trim_on_newlines msg long_string max_length
  = firstn (length long_string - 1) long_string ++ msg.
Proof.
  intros L P N0.
  unfold trim_on_newlines. unfold len in L.
  replace (len long_string >? max_length) with true by (unfold len; lia).
  rewrite rfind_window by (unfold len; lia).
  destruct (rfind_aux_spec nl long_string 0 0 max_length ltac:(lia))
    as [[E _]|(j & Hj & E & W & X & N)].
  - rewrite E. unfold slice_to, adjust, len.
    change (-1 <? 0) with true. cbv iota. do 2 f_equal. lia.
  - exfalso. apply (N0 j); [lia | exact X].
Qed.

Lemma trim_on_newlines_no_cut_witness :
  trim_on_newlines (lit "!") (lit "abcdef" ++ [nl] ++ lit "g") 3
  = lit "abcdef" ++ [nl] ++ lit "!".
Proof.
  apply (trim_on_newlines_no_cut (lit "!") (lit "abcdef" ++ [nl] ++ lit "g") 3).
  - reflexivity.
  - discriminate.
  - intros [|[|[|j]]] H; simpl; try discriminate. lia.
Defined.

(** ** [clean_year] on titles of one line *)

Lemma year_regex_unfold (s : str) :
  Re.re_match year_regex s
  = Re.re_match year_tail s
    || match s with
       | c :: s' => Re.dot c && Re.re_match year_regex s'
       | [] => false
       end.
Proof. destruct s; reflexivity. Qed.

Lemma year_in_parentheses_length (w : str) :
  length w <> 6%nat -> year_in_parentheses w = false.
Proof.
  destruct w as [|a [|b [|c [|d [|e [|f [|g r]]]]]]]; simpl length; intros H;
    try reflexivity. lia.
Qed.

(** Without a newline to stop at, the tail matches exactly the strings
    that are a year in parentheses. *)
Lemma year_tail_match (s : str) :
  ~ In nl s -> Re.re_match year_tail s = year_in_parentheses s.
Proof.
  intros H. unfold year_tail, year_regex.
  destruct s as [|a [|b [|c [|d [|e [|f [|g r]]]]]]];
    cbn [tl Re.re_match year_in_parentheses Re.at_dollar];
    rewrite ?andb_false_r, ?andb_true_r; try reflexivity.
  - now rewrite !andb_assoc.
  - assert (G : (g =? nl)%N = false).
    { apply N.eqb_neq. intros ->. apply H. simpl. tauto. }
    destruct r; rewrite ?G; now rewrite ?andb_false_r.
Qed.

Lemma year_regex_single_line (t : str) :
  ~ In nl t -> Re.re_match year_regex t = ends_with_year t.
Proof.
  induction t as [|c t IH]; intros H; [reflexivity|].
  rewrite year_regex_unfold, year_tail_match by exact H.
  assert (D : Re.dot c = true).
  { unfold Re.dot. apply negb_true_iff, N.eqb_neq. intros ->. apply H. now left. }
  rewrite D, IH by (intros I; apply H; now right).
  unfold ends_with_year. simpl length. simpl andb.
  destruct (Nat.lt_trichotomy (length t) 5) as [L|[E|G]].
  - rewrite !year_in_parentheses_length; [reflexivity | | |];
      rewrite ?length_skipn; simpl length; lia.
  - replace (S (length t) - 6)%nat with 0%nat by lia. simpl skipn.
    rewrite (year_in_parentheses_length (skipn _ t)); [apply orb_false_r|].
    rewrite length_skipn. lia.
  - replace (S (length t) - 6)%nat with (S (length t - 6)) by lia. simpl skipn.
    rewrite (year_in_parentheses_length (c :: t)) by (simpl length; lia).
    reflexivity.
Qed.

(** X1: a title of one line that ends with a year in parentheses is
    returned as it is; any other title of one line gets its year appended. *)
Theorem clean_year_single_line (m : media) :
  ~ In nl (title m) ->
  clean_year m
  = if ends_with_year (title m) then title m
    else title m ++ lit " (" ++ str_of_Z (year m) ++ lit ")".
Proof.
  intros H. unfold clean_year. rewrite year_regex_single_line by exact H.
  now destruct (ends_with_year (title m)).
Qed.

Lemma clean_year_single_line_witness :
  clean_year {| title := lit "Arrival"; year := 2016 |} = lit "Arrival (2016)"
  /\ clean_year {| title := lit "The Flash (2014)"; year := 2014 |}
     = lit "The Flash (2014)".
Proof.
  split.
  - apply (clean_year_single_line {| title := lit "Arrival"; year := 2016 |}).
    simpl. intuition discriminate.
  - apply (clean_year_single_line {| title := lit "The Flash (2014)"; year := 2014 |}).
    simpl. intuition discriminate.
Defined.

(** ** The script on a small library *)

Example clean_year_flash :
  clean_year {| title := lit "The Flash (2014)"; year := 2014 |} = lit "The Flash (2014)".
Proof. reflexivity. Qed.

Example clean_year_arrival :
  clean_year {| title := lit "Arrival"; year := 2016 |} = lit "Arrival (2016)".
Proof. reflexivity. Qed.

(** Three movies, one of them twice: three bulleted lines, "3 Movies". *)
Example three_movies :
  let arrival := {| title := lit "Arrival"; year := 2016 |} in
  movies_str (Sample.cfg true true) [Sample.dune; arrival; arrival]
  = [8226%N] ++ lit " Dune (2021)" ++ [nl]
    ++ [8226%N] ++ lit " Arrival (2016)" ++ [nl]
    ++ [8226%N] ++ lit " Arrival (2016)"
  /\ movie_title (Sample.cfg true true) [Sample.dune; arrival; arrival]
     = lit "3 Movies " ++ [127916%N].
Proof. vm_compute. split; reflexivity. Qed.

(** Two episodes of "Foo" and one of "Bar": the shows in order, with
    their counts, under "2 Shows / 3 Episodes". *)
Example two_shows_three_episodes :
  tv_str (Sample.cfg true true) (Sample.plex [] [])
    [Sample.ep 1; Sample.ep 2; Sample.ep 1]
  = [8226%N] ++ lit " Bar (1999) - *1 episode*" ++ [nl]
    ++ [8226%N] ++ lit " Foo (2020) - *2 episodes*"
  /\ tv_title (Sample.cfg true true) (Sample.plex [] [])
       [Sample.ep 1; Sample.ep 2; Sample.ep 1]
     = lit "2 Shows / 3 Episodes " ++ [128250%N]
  /\ tv_title (Sample.cfg true false) (Sample.plex [] [])
       [Sample.ep 1; Sample.ep 2; Sample.ep 1]
     = lit "2 Shows " ++ [128250%N].
Proof. vm_compute. repeat split. Qed.

(** With something new in both libraries the webhook is called once, with
    the movies before the shows. *)
Example both_sections_sent :
  exists movies shows,
    main (Sample.cfg true true) (Sample.plex [Sample.dune] [Sample.ep 2]) Sample.net
    = [webhook_send (message_title (Sample.cfg true true)) [movies; shows]]
    /\ dhooks.description movies = [8226%N] ++ lit " Dune (2021)"
    /\ dhooks.description shows = [8226%N] ++ lit " Bar (1999) - *1 episode*".
Proof. eexists. eexists. vm_compute. repeat split. Qed.

(** Two sections of 2500 characters each are allowed 2000 each; one made
    of lines of 99 characters is cut after 20 lines, at the newline at
    index 1999. *)
Example long_section_cut :
  let line := repeat 97%N 99 in
  let body := join [nl] (repeat line 25) in
  len body = 2499
  /\ trim_on_newlines (lit "!") body 2000 = join [nl] (repeat line 20) ++ lit "!"
  /\ len (join [nl] (repeat line 20)) = 1999.
Proof. vm_compute. repeat split. Qed.

(** ** The header of the message *)

Lemma slice_to_drop_last (n : str) (u : char) : slice_to (n ++ [u]) (-1) = n.
Proof.
  unfold slice_to, adjust, len. change (-1 <? 0) with true. cbv iota.
  rewrite length_app. simpl length.
  replace (Z.to_nat (Z.max 0 (Z.of_nat (length n + 1) + -1))) with (length n) by lia.
  rewrite firstn_app, firstn_all, Nat.sub_diag. simpl. apply app_nil_r.
Qed.

Lemma getitem_last_app (n : str) (u : char) : getitem_last (n ++ [u]) = inr [u].
Proof. unfold getitem_last. now rewrite rev_app_distr. Qed.

Lemma period_dict_unknown (u : char) :
  ~ In u (lit "mhdw") -> dict_getitem period_dict [u] = inl (KeyError [u]).
Proof.
  intros H. unfold period_dict. cbn [dict_getitem].
  repeat match goal with
  | |- context [str_eq_dec [u] ?k] =>
      destruct (str_eq_dec [u] k) as [E|_];
      [exfalso; apply H; inversion E; cbn; tauto|]
  end.
  reflexivity.
Qed.

(** X5: the lookback period is read as everything but its last character,
    the magnitude, and its last character, the unit.  An empty period raises
    [IndexError]; a unit other than m, h, d and w raises [KeyError]; otherwise
    the text is the name of the unit alone when the magnitude is the string
    "1", and the magnitude, copied as it is, with the name in the plural in
    every other case. *)
Theorem lookback_text_parse :
  lookback_text [] = inl IndexError
  /\ (forall n u name, In ([u], name) period_dict ->
        lookback_text (n ++ [u])
        = inr (if str_eq_dec n (lit "1") then name
               else n ++ lit " " ++ name ++ lit "s"))
  /\ (forall n u, ~ In u (lit "mhdw") ->
        lookback_text (n ++ [u]) = inl (KeyError [u])).
Proof.
  split; [reflexivity|]. split.
  - intros n u name I. unfold lookback_text.
    rewrite slice_to_drop_last, getitem_last_app.
    assert (G : dict_getitem period_dict [u] = inr name).
    { destruct I as [E|[E|[E|[E|[]]]]]; inversion E; subst; vm_compute; reflexivity. }
    rewrite G. now destruct (str_eq_dec n (lit "1")).
  - intros n u H. unfold lookback_text.
    rewrite slice_to_drop_last, getitem_last_app, (period_dict_unknown u H).
    now destruct (str_eq_dec n (lit "1")).
Qed.

Lemma lookback_text_parse_witness :
  lookback_text (lit "24h") = inr (lit "24 hours")
  /\ lookback_text (lit "1d") = inr (lit "day")
  /\ lookback_text (lit "7y") = inl (KeyError (lit "y")).
Proof.
  destruct lookback_text_parse as (_ & P & U).
  split; [|split].
  - apply (P (lit "24") 104%N (lit "hour")). right. left. reflexivity.
  - apply (P (lit "1") 100%N (lit "day")). right. right. left. reflexivity.
  - apply (U (lit "7") 121%N). cbn. intuition discriminate.
Defined.

(** The header for a title and a lookback period of 24 hours. *)
Example header_24h :
  formatted_message_title (lit "New in the last") (lit "24h")
  = inr (message_title (Sample.cfg true true))
  /\ formatted_message_title (lit "New in the last") (lit "24") = inl (KeyError (lit "4")).
Proof. vm_compute. split; reflexivity. Qed.

(** ** The movies *)

Lemma join_bulleted (b : str) (l : list str) :
  l <> [] -> b ++ join ([nl] ++ b) l = join [nl] (map (app b) l).
Proof.
  induction l as [|x [|y t] IH]; intros H; [easy | reflexivity |].
  change (join ([nl] ++ b) (x :: y :: t))
    with (x ++ ([nl] ++ b) ++ join ([nl] ++ b) (y :: t)).
  change (join [nl] (map (app b) (x :: y :: t)))
    with ((b ++ x) ++ [nl] ++ join [nl] (map (app b) (y :: t))).
  rewrite <- IH by discriminate.
  now rewrite <- !app_assoc.
Qed.

(** X6: the text of the movies is one line per movie found, in the order
    found and with repeated movies kept, each line the bullet, a space and
    the cleaned title; its title counts the movies and reads "Movie" for
    exactly one of them. *)
Theorem movies_section_lines (cfg : config) (new_movies : list media) :
  new_movies <> [] ->
  movies_str cfg new_movies
  = join [nl] (map (fun m => bullet cfg ++ lit " " ++ clean_year m) new_movies)
  /\ movie_title cfg new_movies
     = str_of_Z (len new_movies)
       ++ (if len new_movies =? 1 then lit " Movie " else lit " Movies ")
       ++ movie_emote cfg.
Proof.
  intros H. split.
  - unfold movies_str, new_movies_formatted.
    rewrite join_bulleted by (destruct new_movies; [easy | discriminate]).
    rewrite map_map. f_equal. apply map_ext. intros m.
    unfold bullet'. now rewrite <- app_assoc.
  - unfold movie_title, new_movies_formatted, len. rewrite length_map.
    generalize (str_of_Z (Z.of_nat (length new_movies))). intros n.
    now destruct (Z.of_nat (length new_movies) =? 1).
Qed.

Lemma movies_section_lines_witness :
  movies_str (Sample.cfg true true) [Sample.dune; Sample.dune]
  = join [nl]
      (map (fun m => bullet (Sample.cfg true true) ++ lit " " ++ clean_year m)
         [Sample.dune; Sample.dune]).
Proof.
  apply (movies_section_lines (Sample.cfg true true) [Sample.dune; Sample.dune]).
  discriminate.
Defined.

(** ** The words of the shows title *)

Section TitleWords.

Variable cfg : config.
Variable plex : PlexServer.

Lemma total_shows_bounds (new_eps : list episode) :
  new_eps <> [] -> 1 <= total_shows cfg plex new_eps <= len new_eps.
Proof.
  intros NE. rewrite total_shows_len. split.
  - pose proof (counted_shows_nonempty plex new_eps NE) as C.
    unfold len. destruct (counted_shows plex new_eps); [easy|]. simpl length. lia.
  - unfold len. apply inj_le.
    replace (length new_eps) with (length (newShows plex new_eps))
      by (unfold newShows; apply length_map).
    replace (length (counted_shows plex new_eps))
      with (length (Counter_keys (counted_shows plex new_eps)))
      by (unfold Counter_keys; apply length_map).
    apply NoDup_incl_length; [apply Counter_keys_NoDup|].
    intros k. apply Counter_keys_In.
Qed.

(** With a single show the variable the loop leaves behind is the number
    of all the episodes. *)
Lemma single_show_count (new_eps : list episode) :
  total_shows cfg plex new_eps = 1 ->
  last_episode_count_gt_1 cfg plex new_eps = (len new_eps >? 1).
Proof.
  intros T. rewrite total_shows_len in T. unfold len in T.
  destruct (counted_shows plex new_eps) as [|[t n] [|? ?]] eqn:E;
    simpl in T; try lia.
  assert (S : n = len new_eps).
  { unfold counted_shows in E. pose proof (Counter_sum (newShows plex new_eps)) as S.
    rewrite E in S. simpl in S. unfold newShows, len in S.
    rewrite length_map in S. unfold len. lia. }
  unfold last_episode_count_gt_1, tv_loop_run. rewrite E. simpl.
  destruct (str_eq_dec t t); [now rewrite S | congruence].
Qed.

End TitleWords.

(** X7: with new episodes, the title announces at least one show and no
    more shows than episodes; "Shows" and "Episodes" are only written when
    there are at least two new episodes, and a single new episode is
    announced as one "Show" and one "Episode". *)
Theorem tv_title_words
    (cfg : config) (plex : PlexServer) (new_eps : list episode) :
  new_eps <> [] ->
  1 <= total_shows cfg plex new_eps <= len new_eps
  /\ (show_title_counted cfg plex new_eps = lit "Shows" -> 2 <= len new_eps)
  /\ (episode_title_counted cfg plex new_eps = lit "Episodes" -> 2 <= len new_eps)
  /\ (len new_eps = 1 ->
      show_title_counted cfg plex new_eps = lit "Show"
      /\ episode_title_counted cfg plex new_eps = lit "Episode").
Proof.
  intros NE. pose proof (total_shows_bounds cfg plex new_eps NE) as B.
  split; [exact B|].
  unfold show_title_counted, episode_title_counted.
  destruct (total_shows cfg plex new_eps >? 1) eqn:G.
  - repeat split; intros; lia.
  - assert (T : total_shows cfg plex new_eps = 1) by lia.
    rewrite (single_show_count cfg plex new_eps T).
    destruct (len new_eps >? 1) eqn:L.
    + repeat split; intros; lia.
    + repeat split; intros; try lia; discriminate.
Qed.

Lemma tv_title_words_witness :
  show_title_counted (Sample.cfg true true) (Sample.plex [] []) [Sample.ep 2]
  = lit "Show"
  /\ episode_title_counted (Sample.cfg true true) (Sample.plex [] []) [Sample.ep 2]
     = lit "Episode".
Proof.
  assert (NE : [Sample.ep 2] <> []) by discriminate.
  destruct (tv_title_words (Sample.cfg true true) (Sample.plex [] [])
              [Sample.ep 2] NE) as (_ & _ & _ & H).
  apply H. reflexivity.
Defined.

(** ** The embeds of a run *)

Section Embeds.

Variable cfg : config.
Variable plex : PlexServer.

Lemma webhook_embeds_sections :
  webhook_embeds cfg plex = map (section_embed cfg plex) (sections cfg plex).
Proof.
  unfold webhook_embeds, sections.
  destruct (movies_section cfg plex) as [[mt ms]|];
    destruct (tv_section cfg plex) as [[tt ts]|]; reflexivity.
Qed.

Lemma media_lists_sections :
  media_lists cfg plex = map (fun x => snd (fst x)) (sections cfg plex).
Proof.
  unfold media_lists, sections.
  destruct (movies_section cfg plex) as [[mt ms]|];
    destruct (tv_section cfg plex) as [[tt ts]|]; reflexivity.
Qed.

Lemma webhook_embeds_descriptions :
  map dhooks.description (webhook_embeds cfg plex)
  = map (delivered_text cfg plex) (media_lists cfg plex).
Proof.
  rewrite webhook_embeds_sections, media_lists_sections, !map_map.
  apply map_ext. now intros [[t s] c].
Qed.

Lemma len_nonneg {A : Type} (l : list A) : 0 <= len l.
Proof. unfold len. lia. Qed.

Lemma len_le_sum (l : list str) (b : str) :
  In b l -> len b <= sum (map len l).
Proof.
  induction l as [|x l IH]; simpl; [easy|].
  intros [->|I].
  - assert (0 <= sum (map len l)).
    { clear. induction l as [|y l IH]; simpl; [lia|].
      pose proof (len_nonneg y). lia. }
    lia.
  - specialize (IH I). pose proof (len_nonneg x). lia.
Qed.

(** The text cut at a newline is shorter than the bound plus the notice. *)
Lemma trim_on_newlines_length (msg s : str) (max_length : Z) :
  len s > max_length -> newline_before max_length s ->
  len (trim_on_newlines msg s max_length) < max_length + len msg.
Proof.
  intros L (j0 & B0 & X0).
  assert (Lj : (j0 < length s)%nat).
  { apply nth_error_Some. rewrite X0. discriminate. }
  unfold trim_on_newlines. unfold len in L.
  replace (len s >? max_length) with true by (unfold len; lia).
  rewrite rfind_window by (unfold len; lia).
  destruct (rfind_aux_spec nl s 0 0 max_length ltac:(lia))
    as [[_ N]|(j & Hj & E & W & X & N)].
  - exfalso. apply (N j0 Lj); [lia | exact X0].
  - rewrite E. unfold slice_to, adjust, len.
    replace (0 + Z.of_nat j <? 0) with false by lia.
    rewrite Z.min_l by lia. simpl (0 + _). rewrite Nat2Z.id.
    rewrite length_app, length_firstn. lia.
Qed.

Lemma delivered_text_length (body : str) :
  (len body > embed_length (media_lists cfg plex) ->
   newline_before (embed_length (media_lists cfg plex)) body) ->
  len (delivered_text cfg plex body)
  <= embed_length (media_lists cfg plex) + len (max_length_exceeded_msg' cfg).
Proof.
  intros H. unfold delivered_text.
  destruct (len body >? embed_length (media_lists cfg plex)) eqn:G.
  - assert (G' : len body > embed_length (media_lists cfg plex)) by lia.
    pose proof (trim_on_newlines_length (max_length_exceeded_msg' cfg) body _
                  G' (H G')). lia.
  - pose proof (len_nonneg (max_length_exceeded_msg' cfg)). lia.
Qed.

End Embeds.

(** C1, as the code has it: the embeds of a run carry, in order, the texts
    of its sections as delivered, each embed the text of its own section;
    a text within the allowed length is delivered unchanged, with no
    notice, and a longer text is delivered as [trim_on_newlines] returns it,
    cut and ending with the overflow notice. *)
Theorem delivered_description (cfg : config) (plex : PlexServer) :
  map dhooks.description (webhook_embeds cfg plex)
  = map (delivered_text cfg plex) (media_lists cfg plex)
  /\ forall body,
       (len body <= embed_length (media_lists cfg plex) ->
        delivered_text cfg plex body = body)
       /\ (len body > embed_length (media_lists cfg plex) ->
           delivered_text cfg plex body
           = trim_on_newlines (max_length_exceeded_msg' cfg) body
               (embed_length (media_lists cfg plex))
           /\ delivered_text cfg plex body
              = slice_to body
                  (rfind body nl 0 (embed_length (media_lists cfg plex)))
                ++ max_length_exceeded_msg' cfg
           /\ endswith (delivered_text cfg plex body)
                (max_length_exceeded_msg' cfg) = true).
Proof.
  split; [apply webhook_embeds_descriptions|].
  intros body. unfold delivered_text, trim_on_newlines.
  destruct (len body >? embed_length (media_lists cfg plex)) eqn:G.
  - split; [lia|]. intros _. repeat split. apply endswith_app.
  - split; [reflexivity | lia].
Qed.

Lemma delivered_description_witness :
  map dhooks.description
    (webhook_embeds (Sample.cfg true true) (Sample.plex fifty_movies [Sample.ep 2]))
  = map (delivered_text (Sample.cfg true true)
           (Sample.plex fifty_movies [Sample.ep 2]))
      (media_lists (Sample.cfg true true) (Sample.plex fifty_movies [Sample.ep 2])).
Proof.
  exact (proj1 (delivered_description (Sample.cfg true true)
                  (Sample.plex fifty_movies [Sample.ep 2]))).
Defined.

(** X8: the embeds of a run are its sections in the order they were made,
    the movies before the shows; every embed carries the configured
    thumbnail, the title and the colour of its section, and the text of
    its section, trimmed if it is longer than the allowed length. *)
Theorem webhook_embeds_in_order (cfg : config) (plex : PlexServer) :
  length (webhook_embeds cfg plex) = length (media_lists cfg plex)
  /\ Forall (fun e => dhooks.thumbnail e = Some (embed_thumbnail cfg))
       (webhook_embeds cfg plex)
  /\ map dhooks.description (webhook_embeds cfg plex)
     = map (delivered_text cfg plex) (media_lists cfg plex)
  /\ map (fun e => (dhooks.title e, dhooks.color e)) (webhook_embeds cfg plex)
     = match movies_section cfg plex with
       | Some (t, _) => [(t, movie_embed_colour cfg)]
       | None => []
       end
       ++ match tv_section cfg plex with
          | Some (t, _) => [(t, tv_embed_colour cfg)]
          | None => []
          end.
Proof.
  split; [|split; [|split]].
  - rewrite webhook_embeds_sections, media_lists_sections. now rewrite !length_map.
  - rewrite webhook_embeds_sections. apply Forall_map, Forall_forall.
    now intros [[t s] c] _.
  - apply webhook_embeds_descriptions.
  - rewrite webhook_embeds_sections. unfold sections.
    destruct (movies_section cfg plex) as [[mt ms]|];
      destruct (tv_section cfg plex) as [[tt ts]|]; reflexivity.
Qed.

(** X9: when the texts of the sections together are shorter than the
    budget, nothing is trimmed and no notice is added: the embeds carry the
    texts as they were made. *)
Theorem below_budget_unchanged (cfg : config) (plex : PlexServer) :
  sum (map len (media_lists cfg plex)) < message_max_length ->
  map dhooks.description (webhook_embeds cfg plex) = media_lists cfg plex.
Proof.
  intros H. rewrite webhook_embeds_descriptions.
  rewrite <- (map_id (media_lists cfg plex)) at 2.
  apply map_ext_in. intros b I. unfold delivered_text, embed_length.
  replace (sum (map len (media_lists cfg plex)) <? message_max_length)
    with true by lia.
  pose proof (len_le_sum _ _ I).
  now replace (len b >? message_max_length) with false by lia.
Qed.

Lemma below_budget_unchanged_witness :
  map dhooks.description
    (webhook_embeds (Sample.cfg true true) (Sample.plex [Sample.dune] [Sample.ep 2]))
  = media_lists (Sample.cfg true true) (Sample.plex [Sample.dune] [Sample.ep 2]).
Proof.
  apply (below_budget_unchanged (Sample.cfg true true)
           (Sample.plex [Sample.dune] [Sample.ep 2])).
  vm_compute. reflexivity.
Defined.

(** X10: in a run the division of the budget is only reached with one or
    two sections, so it never divides by zero, and the allowed lengths of
    the sections then add up to the budget; the allowed length is always
    4000 or 2000. *)
Theorem embed_length_in_run (cfg : config) (plex : PlexServer) :
  (message_max_length <= sum (map len (media_lists cfg plex)) ->
   1 <= len (media_lists cfg plex) <= 2
   /\ len (media_lists cfg plex) * embed_length (media_lists cfg plex)
      = message_max_length)
  /\ (embed_length (media_lists cfg plex) = 4000
      \/ embed_length (media_lists cfg plex) = 2000).
Proof.
  pose proof (media_lists_count cfg plex) as C.
  unfold embed_length.
  destruct (sum (map len (media_lists cfg plex)) <? message_max_length) eqn:S.
  - split; [lia | now left].
  - assert (N : len (media_lists cfg plex) = 1 \/ len (media_lists cfg plex) = 2).
    { destruct (media_lists cfg plex) as [|a l] eqn:E.
      - discriminate S.
      - unfold len in *. simpl length in *. lia. }
    destruct N as [N|N]; rewrite N.
    + split; [intros _; split; [lia | reflexivity] | now left].
    + split; [intros _; split; [lia | reflexivity] | now right].
Qed.

Lemma embed_length_in_run_witness :
  len (media_lists (Sample.cfg true true) (Sample.plex [Sample.long_movie] []))
  * embed_length (media_lists (Sample.cfg true true) (Sample.plex [Sample.long_movie] []))
  = message_max_length.
Proof.
  apply (proj1 (embed_length_in_run (Sample.cfg true true)
                  (Sample.plex [Sample.long_movie] []))).
  vm_compute. discriminate.
Defined.

(** ** The length of what is delivered *)

Section Budget.

Variable cfg : config.
Variable plex : PlexServer.

Lemma delivered_text_below_budget (b : str) :
  sum (map len (media_lists cfg plex)) < message_max_length ->
  In b (media_lists cfg plex) -> delivered_text cfg plex b = b.
Proof.
  intros H I. unfold delivered_text, embed_length.
  replace (sum (map len (media_lists cfg plex)) <? message_max_length)
    with true by lia.
  pose proof (len_le_sum _ _ I).
  now replace (len b >? message_max_length) with false by lia.
Qed.

Lemma budget_divided :
  message_max_length <= sum (map len (media_lists cfg plex)) ->
  (len (media_lists cfg plex) = 1 \/ len (media_lists cfg plex) = 2)
  /\ len (media_lists cfg plex) * embed_length (media_lists cfg plex)
     = message_max_length.
Proof.
  intros H. pose proof (media_lists_count cfg plex) as C.
  assert (N : len (media_lists cfg plex) = 1 \/ len (media_lists cfg plex) = 2).
  { destruct (media_lists cfg plex) as [|a l].
    - unfold message_max_length in H. simpl in H. lia.
    - unfold len in *. simpl length in *. lia. }
  split; [exact N|]. unfold embed_length.
  replace (sum (map len (media_lists cfg plex)) <? message_max_length)
    with false by lia.
  destruct N as [N|N]; rewrite N; reflexivity.
Qed.

Lemma sum_descriptions :
  sum (map (fun e => len (dhooks.description e)) (webhook_embeds cfg plex))
  = sum (map (fun b => len (delivered_text cfg plex b)) (media_lists cfg plex)).
Proof.
  rewrite <- (map_map dhooks.description len), webhook_embeds_descriptions.
  now rewrite map_map.
Qed.

End Budget.

(** X11: when every section that is longer than its allowed length has a
    newline among its first allowed characters, every embed carries at most
    the allowed length plus the length of the notice, and all embeds
    together carry at most the budget of 4000 plus one notice per section. *)
Theorem delivered_within_budget (cfg : config) (plex : PlexServer) :
  (forall body, In body (media_lists cfg plex) ->
     len body > embed_length (media_lists cfg plex) ->
     newline_before (embed_length (media_lists cfg plex)) body) ->
  Forall (fun e => len (dhooks.description e)
                   <= embed_length (media_lists cfg plex)
                      + len (max_length_exceeded_msg' cfg))
    (webhook_embeds cfg plex)
  /\ sum (map (fun e => len (dhooks.description e)) (webhook_embeds cfg plex))
     <= message_max_length
        + len (media_lists cfg plex) * len (max_length_exceeded_msg' cfg).
Proof.
  intros H.
  assert (B : forall b, In b (media_lists cfg plex) ->
                len (delivered_text cfg plex b)
                <= embed_length (media_lists cfg plex)
                   + len (max_length_exceeded_msg' cfg)).
  { intros b I. apply delivered_text_length. now apply H. }
  split.
  - apply (Forall_map dhooks.description
             (fun d => len d <= embed_length (media_lists cfg plex)
                                + len (max_length_exceeded_msg' cfg))).
    rewrite webhook_embeds_descriptions. apply Forall_map, Forall_forall. exact B.
  - rewrite sum_descriptions.
    pose proof (len_nonneg (max_length_exceeded_msg' cfg)) as P.
    pose proof (len_nonneg (media_lists cfg plex)) as Q.
    destruct (Z.lt_ge_cases (sum (map len (media_lists cfg plex))) message_max_length)
      as [S|S].
    + assert (E : map (fun b => len (delivered_text cfg plex b)) (media_lists cfg plex)
                  = map len (media_lists cfg plex)).
      { apply map_ext_in. intros b I. now rewrite delivered_text_below_budget. }
      rewrite E. nia.
    + destruct (budget_divided cfg plex S) as [N D].
      remember (embed_length (media_lists cfg plex)) as L.
      remember (len (max_length_exceeded_msg' cfg)) as n.
      destruct (media_lists cfg plex) as [|a [|b [|c l]]];
        unfold len in N, D, Q |- *; simpl length in *; try lia.
      * pose proof (B a (or_introl eq_refl)).
        unfold sum. cbn [map fold_right]. unfold len in *. lia.
      * pose proof (B a (or_introl eq_refl)).
        pose proof (B b (or_intror (or_introl eq_refl))).
        unfold sum. cbn [map fold_right]. unfold len in *. lia.
Qed.

Lemma delivered_within_budget_witness :
  sum (map (fun e => len (dhooks.description e))
         (webhook_embeds (Sample.cfg true true) (Sample.plex fifty_movies [])))
  <= message_max_length
     + len (media_lists (Sample.cfg true true) (Sample.plex fifty_movies []))
       * len (max_length_exceeded_msg' (Sample.cfg true true)).
Proof.
  apply (delivered_within_budget (Sample.cfg true true)
           (Sample.plex fifty_movies [])).
  intros body I _. exists 108%nat.
  destruct I as [<-|[]]. split; vm_compute; reflexivity.
Defined.

(** Fifty movies make a text of 5449 characters, allowed 4000: it is cut
    after 36 lines, and 3923 characters precede the notice. *)
Example fifty_movies_cut :
  len (movies_str (Sample.cfg true true) fifty_movies) = 5449
  /\ map (fun e => len (dhooks.description e))
       (webhook_embeds (Sample.cfg true true) (Sample.plex fifty_movies []))
     = [3923 + len (max_length_exceeded_msg' (Sample.cfg true true))].
Proof. vm_compute. split; reflexivity. Qed.

(** ** The requests of a run *)

Lemma webhook_embeds_nil (cfg : config) (plex : PlexServer) :
  webhook_embeds cfg plex = [] <-> media_lists cfg plex = [].
Proof.
  rewrite webhook_embeds_sections, media_lists_sections.
  destruct (sections cfg plex); simpl; split; intros H; try reflexivity;
    discriminate H.
Qed.

(** X12: a run calls the webhook once when there is a section and not at
    all otherwise, with the header and the embeds of the run; it requests
    the uptime monitor once when a non-empty address is configured and not
    at all otherwise, whether or not a message was sent; and when sending
    raises, the run prints the error and goes on to the monitor. *)
Theorem run_requests (cfg : config) (plex : PlexServer) (net : network) :
  length (filter is_webhook_send (main cfg plex net))
  = match media_lists cfg plex with [] => 0%nat | _ :: _ => 1%nat end
  /\ length (filter is_requests_get (main cfg plex net))
     = match uptime_status cfg with
       | Some url => if 0 <? len url then 1%nat else 0%nat
       | None => 0%nat
       end
  /\ (media_lists cfg plex <> [] ->
      exists rest,
        main cfg plex net
        = webhook_send (message_title cfg) (webhook_embeds cfg plex)
          :: rest ++ pinging cfg net
        /\ rest = match send_raises net with
                  | Some err =>
                      [print (lit "There was an error sending the message: " ++ err)]
                  | None => []
                  end).
Proof.
  assert (P1 : filter is_webhook_send (pinging cfg net) = []).
  { unfold pinging. destruct (uptime_status cfg) as [url|]; [|reflexivity].
    destruct (0 <? len url); [|reflexivity].
    now destruct (get_raises net). }
  assert (P2 : length (filter is_requests_get (pinging cfg net))
               = match uptime_status cfg with
                 | Some url => if 0 <? len url then 1%nat else 0%nat
                 | None => 0%nat
                 end).
  { unfold pinging. destruct (uptime_status cfg) as [url|]; [|reflexivity].
    destruct (0 <? len url); [|reflexivity].
    now destruct (get_raises net). }
  assert (S2 : filter is_requests_get (sending cfg plex net) = []).
  { unfold sending. destruct (webhook_embeds cfg plex); [reflexivity|].
    now destruct (send_raises net). }
  pose proof (webhook_embeds_nil cfg plex) as N.
  unfold main. rewrite !filter_app, !length_app, P1, S2, P2.
  split; [|split; [reflexivity|]].
  - unfold sending. simpl. rewrite Nat.add_0_r.
    destruct (webhook_embeds cfg plex) as [|e l] eqn:E.
    + now rewrite (proj1 N eq_refl).
    + destruct (media_lists cfg plex) as [|b ml] eqn:M.
      * destruct N as [_ N]. discriminate (N eq_refl).
      * now destruct (send_raises net).
  - intros NE. unfold sending.
    destruct (webhook_embeds cfg plex) as [|e l] eqn:E.
    + exfalso. apply NE. now apply N.
    + eexists. split; reflexivity.
Qed.

Lemma run_requests_witness :
  exists rest,
    main (Sample.cfg true true) (Sample.plex [Sample.dune] []) Sample.net
    = webhook_send (message_title (Sample.cfg true true))
        (webhook_embeds (Sample.cfg true true) (Sample.plex [Sample.dune] []))
      :: rest ++ pinging (Sample.cfg true true) Sample.net
    /\ rest = [].
Proof.
  apply (proj2 (proj2 (run_requests (Sample.cfg true true)
                         (Sample.plex [Sample.dune] []) Sample.net))).
  vm_compute. discriminate.
Defined.

(** ** Cleaning a title twice *)

Lemma year_in_parentheses_of_year (y : Z) :
  1000 <= y <= 2999 ->
  year_in_parentheses (lit "(" ++ str_of_Z y ++ lit ")") = true.
Proof.
  intros H.
  assert (A : forallb
                (fun k => year_in_parentheses
                            (lit "(" ++ str_of_Z (1000 + Z.of_nat k) ++ lit ")"))
                (seq 0 2000) = true) by (vm_compute; reflexivity).
  rewrite forallb_forall in A.
  specialize (A (Z.to_nat (y - 1000))).
  replace (1000 + Z.of_nat (Z.to_nat (y - 1000))) with y in A by lia.
  apply A, in_seq. lia.
Qed.

Lemma year_in_parentheses_no_newline (w : str) :
  year_in_parentheses w = true -> ~ In nl w.
Proof.
  destruct w as [|a [|b [|c [|d [|e [|f [|g r]]]]]]]; try discriminate.
  unfold year_in_parentheses. intros H.
  repeat (apply andb_prop in H; destruct H as [H ?]).
  intros I. simpl in I.
  repeat (destruct I as [E|I];
          [subst;
           match goal with
           | K : _ = true |- _ => solve [vm_compute in K; discriminate K]
           end|]).
  exact I.
Qed.

Lemma ends_with_year_app (t w : str) :
  year_in_parentheses w = true -> ends_with_year (t ++ w) = true.
Proof.
  intros H. unfold ends_with_year.
  assert (L : length w = 6%nat).
  { destruct (Nat.eq_dec (length w) 6) as [E|N]; [exact E|].
    rewrite (year_in_parentheses_length w N) in H. discriminate. }
  rewrite length_app, L.
  replace (length t + 6 - 6)%nat with (length t + 0)%nat by lia.
  rewrite skipn_app, skipn_all2 by lia.
  replace (length t + 0 - length t)%nat with 0%nat by lia. exact H.
Qed.

(** X13: cleaning is idempotent on titles of one line with a year from
    1000 to 2999: the cleaned title ends with a year in parentheses and has
    one line, so cleaning it again, with any year, returns it unchanged. *)
Theorem clean_year_idempotent (m : media) (y : Z) :
  ~ In nl (title m) ->
  1000 <= year m <= 2999 ->
  ends_with_year (clean_year m) = true
  /\ ~ In nl (clean_year m)
  /\ clean_year {| title := clean_year m; year := y |} = clean_year m.
Proof.
  intros N Y.
  assert (E : ends_with_year (clean_year m) = true /\ ~ In nl (clean_year m)).
  { unfold clean_year at 1 2.
    rewrite (year_regex_single_line (title m) N).
    destruct (ends_with_year (title m)) eqn:T; simpl negb; cbv iota;
      change ([] ++ title m) with (title m).
    - split; assumption.
    - pose proof (year_in_parentheses_of_year (year m) Y) as P.
      replace (title m ++ lit " (" ++ str_of_Z (year m) ++ lit ")")
        with ((title m ++ lit " ") ++ (lit "(" ++ str_of_Z (year m) ++ lit ")"))
        by (rewrite <- app_assoc; reflexivity).
      split; [now apply ends_with_year_app|].
      rewrite !in_app_iff. intros [[I|I]|I].
      + contradiction.
      + simpl in I. destruct I as [I|[]]. discriminate I.
      + apply (year_in_parentheses_no_newline _ P).
        rewrite !in_app_iff. exact I.
  }
  destruct E as [E1 E2]. split; [exact E1|]. split; [exact E2|].
  unfold clean_year at 1. cbn [title year].
  now rewrite (year_regex_single_line _ E2), E1.
Qed.

Lemma clean_year_idempotent_witness :
  clean_year {| title := clean_year {| title := lit "Arrival"; year := 2016 |};
                year := 1999 |}
  = clean_year {| title := lit "Arrival"; year := 2016 |}.
Proof.
  apply (clean_year_idempotent {| title := lit "Arrival"; year := 2016 |} 1999).
  - simpl. intuition discriminate.
  - simpl. lia.
Defined.

(** Outside 1000 to 2999 the year that is appended is not recognised the
    next time: the year 999 is appended twice. *)
Example clean_year_old_year :
  clean_year {| title := clean_year {| title := lit "Beowulf"; year := 999 |};
                year := 999 |}
  = lit "Beowulf (999) (999)".
Proof. reflexivity. Qed.

(** ** The lines of the shows *)

(** X14: the lines of the shows are, for each distinct cleaned title among
    the shows of the new episodes, the line of that title with the number
    of episodes whose show has it, a number that is at least one; there are
    as many lines as distinct titles. *)
Theorem show_lines_of_titles
    (cfg : config) (plex : PlexServer) (new_eps : list episode) :
  (forall line,
     In line (sorted_show_list cfg plex new_eps)
     <-> exists t,
           In t (newShows plex new_eps)
           /\ 1 <= Z.of_nat (count_occ str_eq_dec (newShows plex new_eps) t)
           /\ line = show_line cfg t
                       (Z.of_nat (count_occ str_eq_dec (newShows plex new_eps) t)))
  /\ length (sorted_show_list cfg plex new_eps)
     = length (nodup str_eq_dec (newShows plex new_eps)).
Proof.
  split.
  - intros line. unfold sorted_show_list.
    rewrite show_list_lines.
    split.
    + intros I.
      apply (Permutation_in _ (Permutation_sym (StrSort.Permuted_sort _))) in I.
      apply in_map_iff in I. destruct I as ([t n] & <- & I).
      unfold counted_shows in I. apply Counter_In in I. destruct I as [I ->].
      exists t. split; [exact I|]. split; [|reflexivity].
      apply (count_occ_In str_eq_dec) in I. lia.
    + intros (t & I & _ & ->).
      apply (Permutation_in _ (StrSort.Permuted_sort _)).
      apply in_map_iff.
      exists (t, Z.of_nat (count_occ str_eq_dec (newShows plex new_eps) t)).
      split; [reflexivity|]. unfold counted_shows. apply Counter_In. now split.
  - unfold sorted_show_list.
    rewrite <- (Permutation_length (StrSort.Permuted_sort _)).
    rewrite show_list_lines, length_map.
    replace (length (counted_shows plex new_eps))
      with (length (Counter_keys (counted_shows plex new_eps)))
      by (unfold Counter_keys; apply length_map).
    apply Permutation_length, NoDup_Permutation.
    + apply Counter_keys_NoDup.
    + apply NoDup_nodup.
    + intros t. unfold counted_shows. rewrite Counter_keys_In, nodup_In. tauto.
Qed.

(** Fifty movies and one episode: each section is allowed 2000 characters;
    the movies are cut after 18 lines, at 1961 characters, and end with
    the notice, and the line of the one show is delivered as it is. *)
Example two_sections_one_cut :
  let cfg := Sample.cfg true true in
  let plex := Sample.plex fifty_movies [Sample.ep 2] in
  embed_length (media_lists cfg plex) = 2000
  /\ map dhooks.description (webhook_embeds cfg plex)
     = [ firstn 1961 (movies_str cfg fifty_movies) ++ max_length_exceeded_msg' cfg;
         [8226%N] ++ lit " Bar (1999) - *1 episode*" ].
Proof. vm_compute. split; reflexivity. Qed.
